(** * youtubeview: a shallow embedding of the view bot and its managers

    The development follows the Python sources module by module:
    [proxy_manager.py], [config_manager.py], [browser_manager.py],
    [youtube_bot.py] and [main.py].  A method that logs, mutates its object
    or may raise is a function in a small state-and-exception monad over
    that object; calls into the
    outside world (file system, browser driver, HTTP probe, random number
    generator) read their outcome from an explicit world record, so that a
    statement quantified over worlds covers every behaviour of the
    environment.

    Conventions.
    - Python [str] is [string] (a sequence of 8-bit characters; text outside
      ASCII is not interpreted).
    - Python [int] is [Z].
    - Python [float] is [pyfloat]: an exact rational or one of the IEEE
      special values.  Rounding and overflow of binary64 arithmetic are not
      represented.
    - A logger is the list of records it has emitted, each a level and the
      message template of the logging call (interpolated values are not
      rendered). *)

From Stdlib Require Import ZArith QArith Ascii String List Lia Lqa.
From stdpp Require Import base tactics option list gmap strings pretty.

Local Open Scope Z_scope.
Local Open Scope string_scope.
Local Open Scope list_scope.

(* ===================================================================== *)
(** * Part I: definitions                                                 *)
(* ===================================================================== *)

(** ** Exceptions and the method monad *)

(** The exception classes that the program tells apart.  [Exception_] stands
    for any other subclass of [Exception]; [KeyboardInterrupt] and
    [SystemExit] derive from [BaseException] only, so [except Exception] lets
    them through. *)
Inductive exn : Type :=
  | ValueError
  | OverflowError
  | FileNotFoundError
  | NoSectionError
  | NoOptionError
  | InterpolationError
  | RecursionError
  | IndexError
  | KeyError
  | Exception_
  | KeyboardInterrupt
  | SystemExit (code : Z).

Definition is_Exception (e : exn) : bool :=
  match e with KeyboardInterrupt | SystemExit _ => false | _ => true end.

Inductive result (A : Type) : Type :=
  | Return (a : A)
  | Raise (e : exn).
Arguments Return {A} a.
Arguments Raise {A} e.

(** A method of an object with state [S]: it yields a value or raises, and
    the mutations made before a [raise] stay in place. *)
Definition M (S A : Type) : Type := S → result A * S.

Definition ret {S A} (a : A) : M S A := λ s, (Return a, s).
Definition raise {S A} (e : exn) : M S A := λ s, (Raise e, s).
Definition bind {S A B} (m : M S A) (k : A → M S B) : M S B :=
  λ s, match m s with
       | (Return a, s') => k a s'
       | (Raise e, s') => (Raise e, s')
       end.
Definition lift {S A} (r : result A) : M S A := λ s, (r, s).
Definition gets {S A} (f : S → A) : M S A := λ s, (Return (f s), s).
Definition modify {S} (f : S → S) : M S unit := λ s, (Return tt, f s).

(** [try: body except Exception as e: handler e] *)
Definition try_except {S A} (body : M S A) (handler : exn → M S A) : M S A :=
  λ s, match body s with
       | (Raise e, s') => if is_Exception e then handler e s' else (Raise e, s')
       | r => r
       end.

(** [try] with several [except] clauses: [handlers e] is the clause that
    matches [e], if any. *)
Definition try_catch {S A} (body : M S A) (handlers : exn → option (M S A)) : M S A :=
  λ s, match body s with
       | (Raise e, s') =>
           match handlers e with
           | Some h => h s'
           | None => (Raise e, s')
           end
       | r => r
       end.

(** [try: body except: handler] (a bare [except] catches everything) *)
Definition try_bare {S A} (body : M S A) (handler : M S A) : M S A :=
  λ s, match body s with
       | (Raise _, s') => handler s'
       | r => r
       end.

(** Run a method of a component stored in a field of the enclosing object. *)
Definition zoom {S T A} (get : S → T) (set : T → S → S) (m : M T A) : M S A :=
  λ s, let '(r, t) := m (get s) in (r, set t s).

Declare Scope method_scope.
Delimit Scope method_scope with method.
Notation "x <- c ;; k" := (bind c (λ x, k))
  (at level 100, c at next level, right associativity) : method_scope.
Notation "c ;;; k" := (bind c (λ _, k))
  (at level 100, right associativity) : method_scope.

(** ** Logging *)

Inductive level : Type := DEBUG | INFO | WARNING | ERROR.
Definition log_record : Type := level * string.

(** ** Strings, as Python sees them *)

(** [str.isspace] on ASCII: tab, line feed, vertical tab, form feed, carriage
    return, the four separators 28..31 and the space. *)
Definition isspace (c : ascii) : bool :=
  match c with
  | "009" | "010" | "011" | "012" | "013"
  | "028" | "029" | "030" | "031" | " " => true
  | _ => false
  end%char.

Fixpoint lstrip (s : string) : string :=
  match s with
  | String c s' => if isspace c then lstrip s' else s
  | "" => ""
  end.

(** [rstrip]: drop the trailing run of white space. *)
Fixpoint rstrip (s : string) : string :=
  match s with
  | "" => ""
  | String c s' =>
      match rstrip s' with
      | "" => if isspace c then "" else String c ""
      | t => String c t
      end
  end.

Definition strip (s : string) : string := rstrip (lstrip s).

(** [s.startswith(p)] *)
Fixpoint startswith (p s : string) : bool :=
  match p with
  | "" => true
  | String a p' =>
      match s with
      | "" => false
      | String b s' => Ascii.eqb a b && startswith p' s'
      end
  end.

(** [sub in s] *)
Fixpoint contains (sub s : string) : bool :=
  startswith sub s ||
  match s with
  | "" => false
  | String _ s' => contains sub s'
  end.

(** [s.split(sep)] for a non-empty separator.  [split_go] returns the field
    that starts at the current position and the fields after it; [skip]
    counts the characters of a separator still to be passed over. *)
Fixpoint split_go (sep : string) (skip : nat) (s : string) : string * list string :=
  match s with
  | "" => ("", [])
  | String c s' =>
      match skip with
      | S k => split_go sep k s'
      | O =>
          if startswith sep s
          then ("", let '(f, r) := split_go sep (String.length sep - 1) s' in f :: r)
          else let '(f, r) := split_go sep 0 s' in (String c f, r)
      end
  end.

Definition split (sep s : string) : list string :=
  let '(f, r) := split_go sep 0 s in f :: r.

(** [s.lower()] on ASCII letters. *)
Definition lower_char (c : ascii) : ascii :=
  let n := nat_of_ascii c in
  if ((65 <=? n)%nat && (n <=? 90)%nat)%bool then ascii_of_nat (n + 32) else c.

Fixpoint lower (s : string) : string :=
  match s with
  | "" => ""
  | String c s' => String (lower_char c) (lower s')
  end.

(** The digits of a decimal literal after the sign: digits, with single
    underscores allowed between two digits.  [after_digit] tells whether the
    previous character was a digit. *)
Fixpoint int_digits (s : string) (acc : Z) (after_digit : bool) : option Z :=
  match s with
  | "" => if after_digit then Some acc else None
  | String c s' =>
      match Ascii.is_nat c with
      | Some d => int_digits s' (10 * acc + Z.of_nat d) true
      | None =>
          if (Ascii.eqb c "_" && after_digit)%bool
          then int_digits s' acc false
          else None
      end
  end.

(** [int(s)] in base 10: [None] stands for [ValueError].  (The interpreter's
    limit on the number of digits is not represented.) *)
Definition py_int (s : string) : option Z :=
  match strip s with
  | String "+" r => int_digits r 0 false
  | String "-" r => Z.opp <$> int_digits r 0 false
  | t => int_digits t 0 false
  end.

(** [str(n)] for an [int]. *)
Definition str_int (n : Z) : string := pretty n.

(** ** Floats *)

(** A Python [float]: a finite value, an infinity or a NaN. *)
Inductive pyfloat : Type :=
  | Fin (q : Q)
  | PInf
  | NInf
  | NaN.

Definition Qsign (q : Q) : comparison := (q ?= 0)%Q.

Definition fadd (x y : pyfloat) : pyfloat :=
  match x, y with
  | NaN, _ | _, NaN => NaN
  | PInf, NInf | NInf, PInf => NaN
  | PInf, _ | _, PInf => PInf
  | NInf, _ | _, NInf => NInf
  | Fin a, Fin b => Fin (a + b)
  end.

Definition fneg (x : pyfloat) : pyfloat :=
  match x with
  | Fin a => Fin (- a)
  | PInf => NInf
  | NInf => PInf
  | NaN => NaN
  end.

Definition fsub (x y : pyfloat) : pyfloat := fadd x (fneg y).

(** An infinity times a finite value: the sign decides, and zero gives NaN. *)
Definition inf_times (positive : bool) (q : Q) : pyfloat :=
  match Qsign q with
  | Eq => NaN
  | Gt => if positive then PInf else NInf
  | Lt => if positive then NInf else PInf
  end.

Definition fmul (x y : pyfloat) : pyfloat :=
  match x, y with
  | NaN, _ | _, NaN => NaN
  | Fin a, Fin b => Fin (a * b)
  | PInf, Fin q | Fin q, PInf => inf_times true q
  | NInf, Fin q | Fin q, NInf => inf_times false q
  | PInf, PInf | NInf, NInf => PInf
  | PInf, NInf | NInf, PInf => NInf
  end.

(** [x <= y]; every comparison with a NaN is false. *)
Definition fle (x y : pyfloat) : bool :=
  match x, y with
  | NaN, _ | _, NaN => false
  | NInf, _ | _, PInf => true
  | Fin a, Fin b => Qle_bool a b
  | _, _ => false
  end.

(** [x == y]: a NaN equals nothing, not even itself. *)
Definition feq (x y : pyfloat) : bool :=
  match x, y with
  | Fin a, Fin b => Qeq_bool a b
  | PInf, PInf | NInf, NInf => true
  | _, _ => false
  end.

(** A digit part of a float literal: digits with single underscores between
    them.  Returns the value, the number of digits and what follows. *)
Fixpoint take_digits (s : string) (acc : Z) (n : nat) (after_digit : bool)
  : option (Z * nat * string) :=
  match s with
  | "" => if (after_digit || (n =? 0)%nat)%bool then Some (acc, n, "") else None
  | String c s' =>
      match Ascii.is_nat c with
      | Some d => take_digits s' (10 * acc + Z.of_nat d) (S n) true
      | None =>
          if Ascii.eqb c "_" then
            if after_digit then take_digits s' acc n false else None
          else if (after_digit || (n =? 0)%nat)%bool then Some (acc, n, s) else None
      end
  end.

(** The exponent of a float literal, [0] when there is none. *)
Definition take_exponent (s : string) : option Z :=
  match s with
  | "" => Some 0
  | String c r =>
      if (Ascii.eqb c "e" || Ascii.eqb c "E")%bool then
        let '(neg, r') :=
          match r with
          | String "+" t => (false, t)
          | String "-" t => (true, t)
          | _ => (false, r)
          end in
        match take_digits r' 0 0 false with
        | Some (e, S _, "") => Some (if neg then - e else e)
        | _ => None
        end
      else None
  end.

(** [float(s)]: [None] stands for [ValueError].  The literal is read
    exactly. *)
Definition py_float (s : string) : option pyfloat :=
  let t := strip s in
  let '(neg, body) :=
    match t with
    | String "+" r => (false, r)
    | String "-" r => (true, r)
    | _ => (false, t)
    end in
  let lb := lower body in
  if (String.eqb lb "inf" || String.eqb lb "infinity")%bool then
    Some (if neg then NInf else PInf)
  else if String.eqb lb "nan" then Some NaN
  else
    '(ip, ni, rest) ← take_digits body 0 0 false;
    '(fp, nf, rest') ←
      match rest with
      | String "." r => take_digits r 0 0 false
      | _ => Some (0, 0%nat, rest)
      end;
    if ((ni + nf)%nat =? 0)%nat then None else
    e ← take_exponent rest';
    let m := ip * 10 ^ Z.of_nat nf + fp in
    let q := Qred (inject_Z m * Qpower 10 (e - Z.of_nat nf))%Q in
    Some (Fin (if neg then Qred (- q) else q)).

(** [time.sleep(secs)] rejects negative and NaN arguments with [ValueError]
    and infinite ones with [OverflowError].  (So it does finite delays beyond
    the range of the platform's clock; the model accepts those.) *)
Definition time_sleep (secs : pyfloat) : result unit :=
  match secs with
  | Fin q => if Qle_bool 0 q then Return tt else Raise ValueError
  | NaN | NInf => Raise ValueError
  | PInf => Raise OverflowError
  end.

(** [random.random()]: the generator delivers 53 random bits [k] and the
    result is [k / 2^53], so it lies in [0, 1). *)
Definition random_random (bits : N) : Q :=
  (Z.of_N (bits mod 2 ^ 53)%N # 2 ^ 53)%Q.

(** [random.uniform(a, b)] is [a + (b - a) * random()]. *)
Definition random_uniform (bits : N) (a b : pyfloat) : pyfloat :=
  fadd a (fmul (fsub b a) (Fin (random_random bits))).

(** [len(l)] *)
Definition len {A} (l : list A) : Z := Z.of_nat (length l).

(** [l[i]] for a non-negative index. *)
Definition getitem {A} (l : list A) (i : nat) : result A :=
  match l !! i with
  | Some x => Return x
  | None => Raise IndexError
  end.

(** [int(s)] as a call that may raise. *)
Definition int_ (s : string) : result Z :=
  match py_int s with
  | Some n => Return n
  | None => Raise ValueError
  end.

(** [for x in l: body x] *)
Fixpoint for_each {S A} (l : list A) (body : A → M S unit) : M S unit :=
  match l with
  | [] => ret tt
  | x :: l' => bind (body x) (λ _, for_each l' body)
  end.

(** [random.choice(seq)]: [draw] is the number produced by the generator; an
    empty sequence raises [IndexError]. *)
Definition random_choice {A} (draw : nat) (seq : list A) : result A :=
  match seq !! (draw mod length seq)%nat with
  | Some x => Return x
  | None => Raise IndexError
  end.

(** [l.remove(x)]: delete the first occurrence. *)
Fixpoint remove_first {A} `{EqDecision A} (x : A) (l : list A) : list A :=
  match l with
  | [] => []
  | y :: l' => if decide (x = y) then l' else y :: remove_first x l'
  end.

(** ** Properties of methods *)

(** An outcome that, when it is an exception, is a subclass of [Exception]. *)
Definition ordinary {A} (r : result A) : Prop :=
  ∀ e, r = Raise e → is_Exception e = true.

(** A method that raises subclasses of [Exception] only. *)
Definition safe {S A} (m : M S A) : Prop := ∀ s, ordinary (fst (m s)).

(** A method that always returns. *)
Definition total {S A} (m : M S A) : Prop := ∀ s, ∃ a, fst (m s) = Return a.

(** A method that leaves the component [f] of the state as it was. *)
Definition keeps {S A B} (f : S → B) (m : M S A) : Prop :=
  ∀ s, f (snd (m s)) = f s.

(** From a state in [P], the method ends with an outcome and a state in
    [Q]. *)
Definition hoare {S A} (P : S → Prop) (m : M S A) (Q : result A → S → Prop) : Prop :=
  ∀ s, P s → Q (fst (m s)) (snd (m s)).

(* --------------------------------------------------------------------- *)
(** ** proxy_manager.py                                                   *)
(* --------------------------------------------------------------------- *)

Module ProxyManager.

(** The proxy dictionary: ['host'] and ['port'] are always present, the other
    keys may be absent. *)
Record Proxy : Type := {
  host : string;
  port : Z;
  protocol : option string;
  username : option string;
  password : option string
}.

#[global] Instance Proxy_eq_dec : EqDecision Proxy.
Proof. solve_decision. Defined.

(** The manager.  [proxy_file] is what the constructor was given: a path or
    [None]. *)
Record t : Type := {
  proxy_file : option string;
  logger : list log_record;
  proxies : list Proxy;
  working_proxies : list Proxy;
  failed_proxies : gset string
}.

Definition set_logger (f : list log_record → list log_record) (pm : t) : t :=
  {| proxy_file := proxy_file pm; logger := f (logger pm);
     proxies := proxies pm; working_proxies := working_proxies pm;
     failed_proxies := failed_proxies pm |}.
Definition set_proxies (f : list Proxy → list Proxy) (pm : t) : t :=
  {| proxy_file := proxy_file pm; logger := logger pm;
     proxies := f (proxies pm); working_proxies := working_proxies pm;
     failed_proxies := failed_proxies pm |}.
Definition set_working_proxies (f : list Proxy → list Proxy) (pm : t) : t :=
  {| proxy_file := proxy_file pm; logger := logger pm;
     proxies := proxies pm; working_proxies := f (working_proxies pm);
     failed_proxies := failed_proxies pm |}.
Definition set_failed_proxies (f : gset string → gset string) (pm : t) : t :=
  {| proxy_file := proxy_file pm; logger := logger pm;
     proxies := proxies pm; working_proxies := working_proxies pm;
     failed_proxies := f (failed_proxies pm) |}.

Definition log (lvl : level) (msg : string) : M t unit :=
  modify (set_logger (λ l, l ++ [(lvl, msg)])).

(** What the outside world answers during one call of [get_random_proxy]:
    the [k]-th draw of [random.choice] and the outcome of the [k]-th
    [requests.get] (a status code, or an exception). *)
Record Probes : Type := {
  choice : nat → nat;
  requests_get : nat → result Z
}.

Local Open Scope method_scope.

(** The [try] block of [_parse_proxy_line]; leaving the [if] reaches the
    final [return None]. *)
Definition _parse_proxy_line_try (line : string) : M t (option Proxy) :=
    (let parts := split ":" line in
     if (2 <=? length parts)%nat then
       p0 <- lift (getitem parts 0) ;;
       fields <-
         (if contains "//" p0 then
            protocol <- lift (getitem (split "//" p0) 0) ;;
            host <- lift (getitem (split "//" p0) 1) ;;
            p1 <- lift (getitem parts 1) ;;
            port <- lift (int_ p1) ;;
            ret (protocol, host, port)
          else
            p1 <- lift (getitem parts 1) ;;
            port <- lift (int_ p1) ;;
            ret ("http", p0, port)) ;;
       let '(protocol, host, port) := fields in
       let proxy := {| host := host; port := port; protocol := Some protocol;
                       username := None; password := None |} in
       if (4 <=? length parts)%nat then
         p2 <- lift (getitem parts 2) ;;
         p3 <- lift (getitem parts 3) ;;
         ret (Some {| host := host; port := port; protocol := Some protocol;
                      username := Some p2; password := Some p3 |})
       else ret (Some proxy)
     else ret None).

Definition _parse_proxy_line (line : string) : M t (option Proxy) :=
  try_except
    (_parse_proxy_line_try line)
    (λ e, log WARNING "Failed to parse proxy line '{line}': {str(e)}" ;;; ret None).

(** One turn of the loop of [load_proxies]. *)
Definition load_line (line : string) : M t unit :=
  let line := strip line in
  if (negb (String.eqb line "") && negb (startswith "#" line))%bool then
    proxy <- _parse_proxy_line line ;;
    match proxy with
    | Some p => modify (set_proxies (λ l, l ++ [p]))
    | None => ret tt
    end
  else ret tt.

(** [readlines] is what [open(...)] and [f.readlines()] give: the lines of
    the file, or the exception raised while opening or reading it. *)
Definition load_proxies (readlines : result (list string)) : M t unit :=
  try_except
    (lines <- lift readlines ;;
     for_each lines load_line ;;;
     log INFO "Loaded {len(self.proxies)} proxies from {self.proxy_file}")
    (λ e, match e with
          | FileNotFoundError =>
              log WARNING "Proxy file {self.proxy_file} not found. Running without proxies."
          | _ => log ERROR "Error loading proxies: {str(e)}"
          end).

Definition __init__ (proxy_file : option string) (readlines : result (list string))
  : result unit * t :=
  load_proxies readlines
    {| proxy_file := proxy_file; logger := []; proxies := [];
       working_proxies := []; failed_proxies := ∅ |}.

Definition _proxy_key (proxy : Proxy) : string :=
  host proxy +:+ ":" +:+ str_int (port proxy).

Definition _is_proxy_tested (proxy : Proxy) : M t bool :=
  failed <- gets failed_proxies ;;
  working <- gets working_proxies ;;
  ret (bool_decide (_proxy_key proxy ∈ failed) || bool_decide (proxy ∈ working)).

Definition _format_proxy_url (proxy : Proxy) : string :=
  let protocol := default "http" (protocol proxy) in
  match username proxy, password proxy with
  | Some u, Some p =>
      protocol +:+ "://" +:+ u +:+ ":" +:+ p +:+ "@" +:+ host proxy +:+ ":" +:+ str_int (port proxy)
  | _, _ => protocol +:+ "://" +:+ host proxy +:+ ":" +:+ str_int (port proxy)
  end.

(** [response] is the outcome of [requests.get] through the proxy. *)
Definition _test_proxy (response : string → result Z) (proxy : Proxy) : M t bool :=
  try_except
    (let proxy_url := _format_proxy_url proxy in
     status_code <- lift (response proxy_url) ;;
     if (status_code =? 200)%Z then
       log DEBUG "Proxy {self._proxy_key(proxy)} is working" ;;; ret true
     else
       log DEBUG "Proxy {self._proxy_key(proxy)} returned status {response.status_code}" ;;;
       ret false)
    (λ e, log DEBUG "Proxy {self._proxy_key(proxy)} failed test: {str(e)}" ;;; ret false).

(** [get_random_proxy] calls itself after a failed probe.  [limit] is the
    number of nested calls the interpreter still allows (when it is used up
    Python raises [RecursionError]); [depth] counts the calls made so far and
    selects the answers of the world. *)
Fixpoint get_random_proxy (w : Probes) (limit depth : nat) : M t (option Proxy) :=
  match limit with
  | O => raise RecursionError
  | S limit' =>
      ps <- gets proxies ;;
      if bool_decide (ps = []) then ret None else
      failed <- gets failed_proxies ;;
      let available_proxies := filter (λ p, _proxy_key p ∉ failed) ps in
      if bool_decide (available_proxies = []) then
        log WARNING "No working proxies available" ;;; ret None
      else
        proxy <- lift (random_choice (choice w depth) available_proxies) ;;
        tested <- _is_proxy_tested proxy ;;
        if negb tested then
          ok <- _test_proxy (λ _, requests_get w depth) proxy ;;
          if ok then
            modify (set_working_proxies (λ l, l ++ [proxy])) ;;; ret (Some proxy)
          else
            modify (set_failed_proxies (λ f, f ∪ {[ _proxy_key proxy ]})) ;;;
            get_random_proxy w limit' (S depth)
        else ret (Some proxy)
  end.

Definition mark_proxy_failed (proxy : Proxy) : M t unit :=
  let key := _proxy_key proxy in
  modify (set_failed_proxies (λ f, f ∪ {[ key ]})) ;;;
  working <- gets working_proxies ;;
  (if bool_decide (proxy ∈ working)
   then modify (set_working_proxies (remove_first proxy))
   else ret tt) ;;;
  log DEBUG "Marked proxy {key} as failed".

(** The dictionary returned by [get_proxy_stats]. *)
Module Stats.
Record t : Type := {
  total : Z;
  working : Z;
  failed : Z;
  untested : Z
}.
End Stats.

Definition get_proxy_stats : M t Stats.t :=
  ps <- gets proxies ;;
  ws <- gets working_proxies ;;
  fs <- gets failed_proxies ;;
  ret {| Stats.total := len ps;
         Stats.working := len ws;
         Stats.failed := Z.of_nat (size fs);
         Stats.untested := len ps - len ws - Z.of_nat (size fs) |}.

(** *** Runs of the manager *)

(** The two public operations that touch the failed set.  A call of
    [get_random_proxy] carries the answers of the world and the interpreter's
    recursion allowance. *)
Inductive Call : Type :=
  | CallGet (w : Probes) (limit : nat)
  | CallMark (proxy : Proxy).

Definition run_call (c : Call) (pm : t) : t :=
  match c with
  | CallGet w limit => snd (get_random_proxy w limit 0 pm)
  | CallMark proxy => snd (mark_proxy_failed proxy pm)
  end.

Definition run_calls (cs : list Call) (pm : t) : t :=
  fold_left (λ pm c, run_call c pm) cs pm.

(** The distinct [host:port] keys of the loaded list. *)
Definition keys (pm : t) : gset string :=
  list_to_set (_proxy_key <$> proxies pm).

(** The proxies that a run marks as failed. *)
Definition marked (cs : list Call) : list Proxy :=
  omap (λ c, match c with CallMark p => Some p | CallGet _ _ => None end) cs.

(** The bookkeeping that the calls maintain from a freshly loaded manager
    on: the working list has no duplicates and holds loaded proxies only,
    and every failed key is the key of a loaded proxy that is not in the
    working list. *)
Definition tracked (pm : t) : Prop :=
  NoDup (working_proxies pm) ∧
  (∀ p, p ∈ working_proxies pm → p ∈ proxies pm) ∧
  (∀ k, k ∈ failed_proxies pm →
        ∃ p, p ∈ proxies pm ∧ _proxy_key p = k ∧ p ∉ working_proxies pm).

(** *** Sample values *)

Definition sample_proxy_a : Proxy :=
  {| host := "10.0.0.7"; port := 3128; protocol := Some "http";
     username := None; password := None |}.
Definition sample_proxy_b : Proxy :=
  {| host := "10.0.0.8"; port := 8080; protocol := Some "http";
     username := Some "alice"; password := Some "secret" |}.

Definition sample_manager : t :=
  {| proxy_file := Some "proxies.txt"; logger := [];
     proxies := [sample_proxy_a; sample_proxy_b];
     working_proxies := []; failed_proxies := ∅ |}.

(** Every draw picks the first available proxy; every probe answers 200,
    respectively fails. *)
Definition sample_probes : Probes :=
  {| choice := λ _, 0%nat; requests_get := λ _, Return 200 |}.
Definition failing_probes : Probes :=
  {| choice := λ _, 0%nat; requests_get := λ _, Raise Exception_ |}.

(** *** Reference definitions for the statements about the proxy file *)

Definition blank : t :=
  {| proxy_file := None; logger := []; proxies := [];
     working_proxies := []; failed_proxies := ∅ |}.

(** The proxy a stripped line parses to, if it does. *)
Definition parsed_entry (line : string) : option Proxy :=
  match fst (_parse_proxy_line line blank) with
  | Return (Some p) => Some p
  | _ => None
  end.

(** The entry a line of the proxy file stands for: none for a line that is
    blank or a comment once stripped, else what the stripped line parses
    to. *)
Definition entry_of_line (raw : string) : option Proxy :=
  let line := strip raw in
  if (String.eqb line "" || startswith "#" line)%bool then None
  else parsed_entry line.

End ProxyManager.


(* --------------------------------------------------------------------- *)
(** ** The standard library's [configparser.ConfigParser]                 *)
(* --------------------------------------------------------------------- *)

Module ConfigParser.

(** The parser's store: the named sections and the [DEFAULT] section.
    Option names are kept in lower case ([optionxform]). *)
Record t : Type := {
  _sections : gmap string (gmap string string);
  _defaults : gmap string string
}.

Definition empty : t := {| _sections := ∅; _defaults := ∅ |}.

Definition default_section : string := "DEFAULT".
Definition optionxform (opt : string) : string := lower opt.
Definition MAX_INTERPOLATION_DEPTH : nat := 10.

(** [_unify_values]: the section's options in front of the defaults. *)
Definition _unify_values (cp : t) (section : string) : result (gmap string string) :=
  match _sections cp !! section with
  | Some sectiondict => Return (sectiondict ∪ _defaults cp)
  | None =>
      if String.eqb section default_section then Return (_defaults cp)
      else Raise NoSectionError
  end.

(** The loop of [BasicInterpolation._interpolate_some]: [%%] is a percent
    sign and [%(name)s] the value of option [name], which [deeper]
    interpolates one level further down when it contains a percent sign.
    [key] holds, in reverse, the characters of a name read so far. *)
Fixpoint _interpolate_loop (deeper : string → result string) (map : gmap string string)
    (key : option string) (s : string) : result string :=
  match s with
  | "" =>
      match key with
      | None => Return ""
      | Some _ => Raise InterpolationError
      end
  | String c s' =>
      match key with
      | None =>
          if Ascii.eqb c "%" then
            match s' with
            | String c' s'' =>
                if Ascii.eqb c' "%" then
                  match _interpolate_loop deeper map None s'' with
                  | Return r => Return (String "%" r)
                  | Raise e => Raise e
                  end
                else if Ascii.eqb c' "(" then
                  _interpolate_loop deeper map (Some "") s''
                else Raise InterpolationError
            | "" => Raise InterpolationError
            end
          else
            match _interpolate_loop deeper map None s' with
            | Return r => Return (String c r)
            | Raise e => Raise e
            end
      | Some k =>
          if Ascii.eqb c ")" then
            match s' with
            | String c' s'' =>
                if negb (Ascii.eqb c' "s") then Raise InterpolationError
                else if String.eqb k "" then Raise InterpolationError
                else
                  match map !! optionxform (String.rev k) with
                  | None => Raise InterpolationError
                  | Some v =>
                      match (if contains "%" v then deeper v else Return v) with
                      | Return r1 =>
                          match _interpolate_loop deeper map None s'' with
                          | Return r2 => Return (r1 +:+ r2)
                          | Raise e => Raise e
                          end
                      | Raise e => Raise e
                      end
                  end
            | "" => Raise InterpolationError
            end
          else _interpolate_loop deeper map (Some (String c k)) s'
      end
  end.

(** [levels] is the number of nested interpolations still allowed. *)
Fixpoint _interpolate_some (levels : nat) (map : gmap string string) (rest : string)
  : result string :=
  match levels with
  | O => Raise InterpolationError
  | S levels' =>
      _interpolate_loop (λ v, _interpolate_some levels' map v) map None rest
  end.

Definition before_get (map : gmap string string) (value : string) : result string :=
  _interpolate_some MAX_INTERPOLATION_DEPTH map value.

(** [get(section, option)] without a fallback. *)
Definition get (cp : t) (section opt : string) : result string :=
  match _unify_values cp section with
  | Raise e => Raise e
  | Return d =>
      match d !! optionxform opt with
      | None => Raise NoOptionError
      | Some value => before_get d value
      end
  end.

(** [get(section, option, fallback=fallback)]: a missing section or option
    gives the fallback. *)
Definition get_fallback (cp : t) (section opt : string) (fallback : option string)
  : result (option string) :=
  match _unify_values cp section with
  | Raise _ => Return fallback
  | Return d =>
      match d !! optionxform opt with
      | None => Return fallback
      | Some value =>
          match before_get d value with
          | Return v => Return (Some v)
          | Raise e => Raise e
          end
      end
  end.

(** [_get_conv]: convert the value; [NoSectionError] and [NoOptionError] give
    the fallback, any other exception goes to the caller. *)
Definition _get_conv {A} (cp : t) (section opt : string)
    (conv : string → result A) (fallback : A) : result A :=
  match get cp section opt with
  | Return v => conv v
  | Raise NoSectionError | Raise NoOptionError => Return fallback
  | Raise e => Raise e
  end.

Definition _convert_to_boolean (value : string) : result bool :=
  let v := lower value in
  if (String.eqb v "1" || String.eqb v "yes" || String.eqb v "true" || String.eqb v "on")%bool
  then Return true
  else if (String.eqb v "0" || String.eqb v "no" || String.eqb v "false" || String.eqb v "off")%bool
  then Return false
  else Raise ValueError.

Definition float_ (s : string) : result pyfloat :=
  match py_float s with
  | Some x => Return x
  | None => Raise ValueError
  end.

Definition getint (cp : t) (section opt : string) (fallback : Z) : result Z :=
  _get_conv cp section opt int_ fallback.
Definition getfloat (cp : t) (section opt : string) (fallback : pyfloat) : result pyfloat :=
  _get_conv cp section opt float_ fallback.
Definition getboolean (cp : t) (section opt : string) (fallback : bool) : result bool :=
  _get_conv cp section opt _convert_to_boolean fallback.

(** [cp[section] = options]: the section is replaced as a whole. *)
Definition setitem (section : string) (options : list (string * string)) (cp : t) : t :=
  let d : gmap string string := list_to_map (prod_map optionxform id <$> options) in
  if String.eqb section default_section
  then {| _sections := _sections cp; _defaults := d |}
  else {| _sections := <[section := d]> (_sections cp); _defaults := _defaults cp |}.

End ConfigParser.

(* --------------------------------------------------------------------- *)
(** ** config_manager.py                                                  *)
(* --------------------------------------------------------------------- *)

Module ConfigManager.

Record t : Type := {
  config_file : string;
  logger : list log_record;
  config : ConfigParser.t
}.

Definition set_logger (f : list log_record → list log_record) (cm : t) : t :=
  {| config_file := config_file cm; logger := f (logger cm); config := config cm |}.
Definition set_config (f : ConfigParser.t → ConfigParser.t) (cm : t) : t :=
  {| config_file := config_file cm; logger := logger cm; config := f (config cm) |}.

Definition log (lvl : level) (msg : string) : M t unit :=
  modify (set_logger (λ l, l ++ [(lvl, msg)])).

(** The file system as [load_config] meets it: whether the configuration
    file exists, the store the parser holds once [read] has returned or
    raised, the exception [read] raised, and the outcome of writing the
    file back. *)
Record Files : Type := {
  path_exists : bool;
  parsed : ConfigParser.t;
  read : result unit;
  write : result unit
}.

Local Open Scope method_scope.

Definition _save_config (w : Files) : M t unit :=
  try_except
    (lift (write w))
    (λ e, log ERROR "Error saving configuration: {str(e)}").

Definition _create_default_config (w : Files) : M t unit :=
  modify (set_config (ConfigParser.setitem "GENERAL"
    [("proxy_file", "proxies.txt"); ("headless_mode", "False");
     ("disable_images", "True"); ("log_level", "INFO")])) ;;;
  modify (set_config (ConfigParser.setitem "TIMING"
    [("min_delay_between_views", "30"); ("max_delay_between_views", "120");
     ("min_watch_duration", "30"); ("max_watch_duration", "180");
     ("page_load_timeout", "30")])) ;;;
  modify (set_config (ConfigParser.setitem "BEHAVIOR"
    [("scroll_probability", "0.3"); ("pause_probability", "0.4");
     ("mouse_move_probability", "0.2"); ("random_behavior_enabled", "True")])) ;;;
  modify (set_config (ConfigParser.setitem "BROWSER"
    [("user_agent_rotation", "True"); ("window_size_randomization", "True");
     ("disable_webrtc", "True"); ("disable_plugins", "True")])) ;;;
  _save_config w.

Definition load_config (w : Files) : M t unit :=
  try_except
    (if path_exists w then
       modify (set_config (λ _, parsed w)) ;;;
       lift (read w) ;;;
       log INFO "Configuration loaded from {self.config_file}"
     else
       _create_default_config w ;;;
       log INFO "Created default configuration at {self.config_file}")
    (λ e, log ERROR "Error loading configuration: {str(e)}" ;;;
          _create_default_config w).

Definition __init__ (config_file : string) (w : Files) : result unit * t :=
  load_config w
    {| config_file := config_file; logger := []; config := ConfigParser.empty |}.

Definition get (section key : string) (fallback : option string) : M t (option string) :=
  try_except
    (cfg <- gets config ;; lift (ConfigParser.get_fallback cfg section key fallback))
    (λ _, ret fallback).

Definition get_bool (section key : string) (fallback : bool) : M t bool :=
  try_except
    (cfg <- gets config ;; lift (ConfigParser.getboolean cfg section key fallback))
    (λ _, ret fallback).

Definition get_int (section key : string) (fallback : Z) : M t Z :=
  try_except
    (cfg <- gets config ;; lift (ConfigParser.getint cfg section key fallback))
    (λ _, ret fallback).

Definition get_float (section key : string) (fallback : pyfloat) : M t pyfloat :=
  try_except
    (cfg <- gets config ;; lift (ConfigParser.getfloat cfg section key fallback))
    (λ _, ret fallback).

Definition get_proxy_file : M t (option string) :=
  get "GENERAL" "proxy_file" (Some "proxies.txt").
Definition get_headless_mode : M t bool :=
  get_bool "GENERAL" "headless_mode" false.
Definition get_disable_images : M t bool :=
  get_bool "GENERAL" "disable_images" true.
Definition get_min_delay : M t pyfloat :=
  get_float "TIMING" "min_delay_between_views" (Fin 30).
Definition get_max_delay : M t pyfloat :=
  get_float "TIMING" "max_delay_between_views" (Fin 120).
Definition get_min_watch_duration : M t pyfloat :=
  get_float "TIMING" "min_watch_duration" (Fin 30).
Definition get_max_watch_duration : M t pyfloat :=
  get_float "TIMING" "max_watch_duration" (Fin 180).
Definition get_page_load_timeout : M t Z :=
  get_int "TIMING" "page_load_timeout" 30.
Definition get_scroll_probability : M t pyfloat :=
  get_float "BEHAVIOR" "scroll_probability" (Fin (3 # 10)).
Definition get_pause_probability : M t pyfloat :=
  get_float "BEHAVIOR" "pause_probability" (Fin (4 # 10)).
Definition get_mouse_move_probability : M t pyfloat :=
  get_float "BEHAVIOR" "mouse_move_probability" (Fin (2 # 10)).
Definition is_random_behavior_enabled : M t bool :=
  get_bool "BEHAVIOR" "random_behavior_enabled" true.

(** *** Sequences of accessor calls *)

(** A call of one of the accessors, with its arguments. *)
Inductive Accessor : Type :=
  | Get (section key : string) (fallback : option string)
  | GetBool (section key : string) (fallback : bool)
  | GetInt (section key : string) (fallback : Z)
  | GetFloat (section key : string) (fallback : pyfloat)
  | GetProxyFile
  | GetHeadlessMode
  | GetDisableImages
  | GetMinDelay
  | GetMaxDelay
  | GetMinWatchDuration
  | GetMaxWatchDuration
  | GetPageLoadTimeout
  | GetScrollProbability
  | GetPauseProbability
  | GetMouseMoveProbability
  | IsRandomBehaviorEnabled.

(** What an accessor hands back. *)
Inductive Value : Type :=
  | VStr (s : option string)
  | VBool (b : bool)
  | VInt (n : Z)
  | VFloat (x : pyfloat).

Definition call (a : Accessor) : M t Value :=
  match a with
  | Get section key fallback => v <- get section key fallback ;; ret (VStr v)
  | GetBool section key fallback => v <- get_bool section key fallback ;; ret (VBool v)
  | GetInt section key fallback => v <- get_int section key fallback ;; ret (VInt v)
  | GetFloat section key fallback => v <- get_float section key fallback ;; ret (VFloat v)
  | GetProxyFile => v <- get_proxy_file ;; ret (VStr v)
  | GetHeadlessMode => v <- get_headless_mode ;; ret (VBool v)
  | GetDisableImages => v <- get_disable_images ;; ret (VBool v)
  | GetMinDelay => v <- get_min_delay ;; ret (VFloat v)
  | GetMaxDelay => v <- get_max_delay ;; ret (VFloat v)
  | GetMinWatchDuration => v <- get_min_watch_duration ;; ret (VFloat v)
  | GetMaxWatchDuration => v <- get_max_watch_duration ;; ret (VFloat v)
  | GetPageLoadTimeout => v <- get_page_load_timeout ;; ret (VInt v)
  | GetScrollProbability => v <- get_scroll_probability ;; ret (VFloat v)
  | GetPauseProbability => v <- get_pause_probability ;; ret (VFloat v)
  | GetMouseMoveProbability => v <- get_mouse_move_probability ;; ret (VFloat v)
  | IsRandomBehaviorEnabled => v <- is_random_behavior_enabled ;; ret (VBool v)
  end.

(** The calls one after the other, collecting the values. *)
Fixpoint call_all (l : list Accessor) : M t (list Value) :=
  match l with
  | [] => ret []
  | a :: l' => v <- call a ;; vs <- call_all l' ;; ret (v :: vs)
  end.

(** [v == v0] on the values that the accessors hand back. *)
Definition Value_eqb (v v0 : Value) : bool :=
  match v, v0 with
  | VStr s, VStr s0 => bool_decide (s = s0)
  | VBool b, VBool b0 => bool_decide (b = b0)
  | VInt n, VInt n0 => (n =? n0)%Z
  | VFloat x, VFloat x0 => feq x x0
  | _, _ => false
  end.

(** The convenience getters, each of which carries its own fallback. *)
Definition convenience_getters : list Accessor :=
  [GetProxyFile; GetHeadlessMode; GetDisableImages; GetMinDelay; GetMaxDelay;
   GetMinWatchDuration; GetMaxWatchDuration; GetPageLoadTimeout;
   GetScrollProbability; GetPauseProbability; GetMouseMoveProbability;
   IsRandomBehaviorEnabled].

(** *** Sample values *)


(** A configuration file that puts no lower limit on the delay. *)
Definition unbounded_store : ConfigParser.t :=
  ConfigParser.setitem "TIMING"
    [("min_delay_between_views", "-inf"); ("max_delay_between_views", "120")]
    ConfigParser.empty.

(** A configuration file with negative delays. *)
Definition negative_store : ConfigParser.t :=
  ConfigParser.setitem "TIMING"
    [("min_delay_between_views", "-2"); ("max_delay_between_views", "-1")]
    ConfigParser.empty.

Definition files_with (store : ConfigParser.t) : Files :=
  {| path_exists := true; parsed := store; read := Return tt; write := Return tt |}.

(** No configuration file yet: the defaults are created and saved. *)
Definition no_file : Files :=
  {| path_exists := false; parsed := ConfigParser.empty;
     read := Return tt; write := Return tt |}.

(** A manager whose parser holds nothing: every getter answers with its
    fallback. *)
Definition unconfigured : t :=
  {| config_file := "config.ini"; logger := []; config := ConfigParser.empty |}.

End ConfigManager.

(* --------------------------------------------------------------------- *)
(** ** browser_manager.py                                                 *)
(* --------------------------------------------------------------------- *)

Module BrowserManager.

(** The configuration object is the one the bot holds; it is not written
    after its construction, so the two fields agree. *)
Record t : Type := {
  config : ConfigManager.t;
  logger : list log_record
}.

Definition set_logger (f : list log_record → list log_record) (bm : t) : t :=
  {| config := config bm; logger := f (logger bm) |}.
Definition set_config (c : ConfigManager.t) (bm : t) : t :=
  {| config := c; logger := logger bm |}.

Definition log (lvl : level) (msg : string) : M t unit :=
  modify (set_logger (λ l, l ++ [(lvl, msg)])).

(** Chrome options: the command-line arguments and the names of the
    experimental options that were set. *)
Record Options : Type := {
  arguments : list string;
  experimental_options : list string
}.

Definition add_argument (a : string) (o : Options) : Options :=
  {| arguments := arguments o ++ [a]; experimental_options := experimental_options o |}.
Definition add_experimental_option (name : string) (o : Options) : Options :=
  {| arguments := arguments o; experimental_options := experimental_options o ++ [name] |}.

(** The driver handle, described by what it was started with. *)
Record Browser : Type := {
  options : Options;
  window_size : Z * Z
}.

(** What the driver and the user-agent library answer while one browser is
    created and closed. *)
Record Driver : Type := {
  ua_chrome : result string;        (* [self.ua.chrome] *)
  fallback_draw : nat;              (* [random.choice(fallback_agents)] *)
  chrome : result unit;             (* [Service()], [webdriver.Chrome(...)], the two timeouts *)
  size_draw : nat;                  (* [random.choice(sizes)] *)
  set_window_size : result unit;    (* [driver.set_window_size] *)
  quit : result unit                (* [driver.quit()] *)
}.

Local Open Scope method_scope.

(** [BrowserManager(config_manager)]; [ua_init] is the outcome of
    [UserAgent()]. *)
Definition __init__ (config_manager : ConfigManager.t) (ua_init : result unit) : result t :=
  match ua_init with
  | Return _ => Return {| config := config_manager; logger := [] |}
  | Raise e => Raise e
  end.

Definition on_config {A} (m : M ConfigManager.t A) : M t A := zoom config set_config m.

Definition _get_random_user_agent (w : Driver) : M t string :=
  try_except
    (user_agent <- lift (ua_chrome w) ;;
     log DEBUG "Using user agent: {user_agent}" ;;;
     ret user_agent)
    (λ _,
     let fallback_agents :=
       [ "Mozilla/5.0 (Windows NT 10.0; Win64; x64) AppleWebKit/537.36 (KHTML, like Gecko) Chrome/91.0.4472.124 Safari/537.36";
         "Mozilla/5.0 (Macintosh; Intel Mac OS X 10_15_7) AppleWebKit/537.36 (KHTML, like Gecko) Chrome/91.0.4472.124 Safari/537.36";
         "Mozilla/5.0 (X11; Linux x86_64) AppleWebKit/537.36 (KHTML, like Gecko) Chrome/91.0.4472.124 Safari/537.36" ] in
     lift (random_choice (fallback_draw w) fallback_agents)).

Definition _get_chrome_options (w : Driver) (proxy : option ProxyManager.Proxy) : M t Options :=
  let options := {| arguments := []; experimental_options := [] |} in
  let options := add_argument "--no-sandbox" options in
  let options := add_argument "--disable-dev-shm-usage" options in
  let options := add_argument "--disable-blink-features=AutomationControlled" options in
  let options := add_experimental_option "excludeSwitches" options in
  let options := add_experimental_option "useAutomationExtension" options in
  user_agent <- _get_random_user_agent w ;;
  let options := add_argument ("--user-agent=" +:+ user_agent) options in
  disable_images <- on_config ConfigManager.get_disable_images ;;
  let options := if disable_images : bool then add_experimental_option "prefs" options
                 else options in
  let options := add_argument "--lang=en-US" options in
  let options := add_argument "--log-level=3" options in
  let options := add_argument "--silent" options in
  let options := add_argument "--memory-pressure-off" options in
  let options := add_argument "--max_old_space_size=4096" options in
  let options := add_argument "--disable-plugins-discovery" options in
  let options := add_argument "--disable-extensions" options in
  let options := add_argument "--disable-default-apps" options in
  let options := add_argument "--disable-sync" options in
  options <-
    match proxy with
    | Some p =>
        protocol <- lift (match ProxyManager.protocol p with
                          | Some x => Return x
                          | None => Raise KeyError
                          end) ;;
        let proxy_option :=
          "--proxy-server=" +:+ protocol +:+ "://" +:+ ProxyManager.host p
            +:+ ":" +:+ str_int (ProxyManager.port p) in
        (match ProxyManager.username p, ProxyManager.password p with
         | Some _, Some _ => log WARNING "Proxy authentication requires additional setup"
         | _, _ => ret tt
         end) ;;;
        ret (add_argument proxy_option options)
    | None => ret options
    end ;;
  headless <- on_config ConfigManager.get_headless_mode ;;
  ret (if headless : bool then add_argument "--headless" options else options).

Definition _set_random_window_size (w : Driver) : M t (Z * Z) :=
  let sizes := [(1920, 1080); (1366, 768); (1536, 864); (1440, 900); (1280, 720); (1024, 768)] in
  size <- lift (random_choice (size_draw w) sizes) ;;
  lift (set_window_size w) ;;;
  log DEBUG "Set window size to {width}x{height}" ;;;
  ret size.

Definition create_browser (w : Driver) (proxy : option ProxyManager.Proxy)
  : M t (option Browser) :=
  try_except
    (options <- _get_chrome_options w proxy ;;
     lift (chrome w) ;;;
     size <- _set_random_window_size w ;;
     log DEBUG "Browser created successfully" ;;;
     ret (Some {| options := options; window_size := size |}))
    (λ e, log ERROR "Failed to create browser: {str(e)}" ;;; ret None).

Definition close_browser (w : Driver) (driver : option Browser) : M t unit :=
  try_except
    (match driver with
     | Some _ => lift (quit w) ;;; log DEBUG "Browser closed successfully"
     | None => ret tt
     end)
    (λ e, log WARNING "Error closing browser: {str(e)}").

(** A driver and a user-agent library that raise subclasses of
    [Exception] only. *)
Definition Driver_ordinary (w : Driver) : Prop :=
  ordinary (ua_chrome w) ∧ ordinary (chrome w) ∧
  ordinary (set_window_size w) ∧ ordinary (quit w).

(** *** Sample values *)

(** A driver with which everything works. *)
Definition calm_driver : Driver :=
  {| ua_chrome := Return "Mozilla/5.0 (X11; Linux x86_64) Chrome/91.0";
     fallback_draw := 0; chrome := Return tt; size_draw := 1;
     set_window_size := Return tt; quit := Return tt |}.

(** The manager built on the default configuration, and the browser that
    the calm driver gives it when no proxy is used. *)
Definition calm_manager : t :=
  {| config := snd (ConfigManager.__init__ "config.ini" ConfigManager.no_file);
     logger := [] |}.

Definition calm_browser : Browser :=
  {| options :=
       {| arguments :=
            ["--no-sandbox"; "--disable-dev-shm-usage";
             "--disable-blink-features=AutomationControlled";
             "--user-agent=Mozilla/5.0 (X11; Linux x86_64) Chrome/91.0";
             "--lang=en-US"; "--log-level=3"; "--silent"; "--memory-pressure-off";
             "--max_old_space_size=4096"; "--disable-plugins-discovery";
             "--disable-extensions"; "--disable-default-apps"; "--disable-sync"];
          experimental_options :=
            ["excludeSwitches"; "useAutomationExtension"; "prefs"] |};
     window_size := (1366, 768) |}.

End BrowserManager.

(* --------------------------------------------------------------------- *)
(** ** youtube_bot.py                                                     *)
(* --------------------------------------------------------------------- *)

Module YouTubeBot.

Record t : Type := {
  config : ConfigManager.t;
  logger : list log_record;
  proxy_manager : ProxyManager.t;
  browser_manager : BrowserManager.t;
  success_count : Z;
  failed_count : Z
}.

Definition set_config (c : ConfigManager.t) (b : t) : t :=
  {| config := c; logger := logger b; proxy_manager := proxy_manager b;
     browser_manager := browser_manager b;
     success_count := success_count b; failed_count := failed_count b |}.
Definition set_logger (f : list log_record → list log_record) (b : t) : t :=
  {| config := config b; logger := f (logger b); proxy_manager := proxy_manager b;
     browser_manager := browser_manager b;
     success_count := success_count b; failed_count := failed_count b |}.
Definition set_proxy_manager (pm : ProxyManager.t) (b : t) : t :=
  {| config := config b; logger := logger b; proxy_manager := pm;
     browser_manager := browser_manager b;
     success_count := success_count b; failed_count := failed_count b |}.
Definition set_browser_manager (bm : BrowserManager.t) (b : t) : t :=
  {| config := config b; logger := logger b; proxy_manager := proxy_manager b;
     browser_manager := bm;
     success_count := success_count b; failed_count := failed_count b |}.
Definition set_success_count (f : Z → Z) (b : t) : t :=
  {| config := config b; logger := logger b; proxy_manager := proxy_manager b;
     browser_manager := browser_manager b;
     success_count := f (success_count b); failed_count := failed_count b |}.
Definition set_failed_count (f : Z → Z) (b : t) : t :=
  {| config := config b; logger := logger b; proxy_manager := proxy_manager b;
     browser_manager := browser_manager b;
     success_count := success_count b; failed_count := f (failed_count b) |}.

Definition log (lvl : level) (msg : string) : M t unit :=
  modify (set_logger (λ l, l ++ [(lvl, msg)])).

Definition on_config {A} (m : M ConfigManager.t A) : M t A :=
  zoom config set_config m.
Definition on_proxy_manager {A} (m : M ProxyManager.t A) : M t A :=
  zoom proxy_manager set_proxy_manager m.
Definition on_browser_manager {A} (m : M BrowserManager.t A) : M t A :=
  zoom browser_manager set_browser_manager m.

(** What the world answers during one view: the proxy probes, the driver,
    the page and the random numbers, in the order the code asks for them. *)
Record View : Type := {
  probes : ProxyManager.Probes;
  recursion_limit : nat;           (* nested calls the interpreter still allows *)
  driver : BrowserManager.Driver;
  page_get : result unit;          (* [browser.get(video_url)] *)
  load_bits : N;                   (* [random.uniform(2, 5)] *)
  find_video : result bool;        (* [find_element(..., "video")], truthiness *)
  scroll_bits : N;                 (* [random.random() < 0.3] *)
  scroll_script : result unit;     (* [execute_script("window.scrollBy...")] *)
  scroll_wait_bits : N;            (* [random.uniform(1, 3)] *)
  mouse_bits : N;                  (* [random.random() < 0.2] *)
  find_body : result unit;         (* [find_element("tag name", "body")] *)
  cursor_script : result unit;     (* [execute_script(... cursor ...)] *)
  pause_bits : N;                  (* [random.random() < 0.4] *)
  pause_wait_bits : N;             (* [random.uniform(1, 4)] *)
  watch_bits : N;                  (* the draw of [_get_random_watch_duration] *)
  delay_bits : N                   (* the draw of [_get_random_delay] *)
}.

Local Open Scope method_scope.

(** [YouTubeBot(config_manager)]: [readlines] is the proxy file as
    [ProxyManager] reads it and [ua_init] the outcome of [UserAgent()]. *)
Definition __init__ (config_manager : ConfigManager.t)
    (readlines : result (list string)) (ua_init : result unit) : result t :=
  match ConfigManager.get_proxy_file config_manager with
  | (Raise e, _) => Raise e
  | (Return proxy_file, config_manager) =>
      match ProxyManager.__init__ proxy_file readlines with
      | (Raise e, _) => Raise e
      | (Return _, pm) =>
          match BrowserManager.__init__ config_manager ua_init with
          | Raise e => Raise e
          | Return bm =>
              Return {| config := config_manager; logger := [];
                        proxy_manager := pm; browser_manager := bm;
                        success_count := 0; failed_count := 0 |}
          end
      end
  end.

Definition _get_random_delay (bits : N) : M t pyfloat :=
  min_delay <- on_config ConfigManager.get_min_delay ;;
  max_delay <- on_config ConfigManager.get_max_delay ;;
  ret (random_uniform bits min_delay max_delay).

Definition _get_random_watch_duration (bits : N) : M t pyfloat :=
  min_duration <- on_config ConfigManager.get_min_watch_duration ;;
  max_duration <- on_config ConfigManager.get_max_watch_duration ;;
  ret (random_uniform bits min_duration max_duration).

Definition _simulate_human_behavior (w : View) : M t unit :=
  try_except
    ((if Qlt_le_dec (random_random (scroll_bits w)) (3 # 10) then
        lift (scroll_script w) ;;;
        lift (time_sleep (random_uniform (scroll_wait_bits w) (Fin 1) (Fin 3)))
      else ret tt) ;;;
     (if Qlt_le_dec (random_random (mouse_bits w)) (2 # 10) then
        try_bare
          (lift (find_body w) ;;;
           lift (cursor_script w) ;;;
           lift (time_sleep (Fin (1 # 2))))
          (ret tt)
      else ret tt) ;;;
     (if Qlt_le_dec (random_random (pause_bits w)) (4 # 10) then
        lift (time_sleep (random_uniform (pause_wait_bits w) (Fin 1) (Fin 4)))
      else ret tt))
    (λ e, log DEBUG "Error during behavior simulation: {str(e)}").

Definition _simulate_view (w : View) (video_url : string) : M t bool :=
  try_except
    (log DEBUG "Navigating to video URL" ;;;
     lift (page_get w) ;;;
     lift (time_sleep (random_uniform (load_bits w) (Fin 2) (Fin 5))) ;;;
     found <-
       try_except
         (video_element <- lift (find_video w) ;;
          if negb video_element then
            log WARNING "Video element not found" ;;; ret false
          else ret true)
         (λ e, log WARNING "Could not find video element: {str(e)}" ;;; ret false) ;;
     if negb found then ret false else
     _simulate_human_behavior w ;;;
     watch_duration <- _get_random_watch_duration (watch_bits w) ;;
     log DEBUG "Watching video for {watch_duration} seconds" ;;;
     lift (time_sleep watch_duration) ;;;
     ret true)
    (λ e, log ERROR "Error during view simulation: {str(e)}" ;;; ret false).

(** One turn of the loop of [generate_views], for the index [i]. *)
Definition generate_view (w : View) (video_url : string) (target_views : Z) (i : nat)
  : M t unit :=
  try_except
    (log INFO "Generating view {i + 1}/{target_views}" ;;;
     proxy <- on_proxy_manager
                (ProxyManager.get_random_proxy (probes w) (recursion_limit w) 0) ;;
     (match proxy with
      | Some _ => log DEBUG "Using proxy: {proxy['host']}:{proxy['port']}"
      | None => ret tt
      end) ;;;
     browser <- on_browser_manager (BrowserManager.create_browser (driver w) proxy) ;;
     (match browser with
      | Some _ =>
          success <- _simulate_view w video_url ;;
          (if success : bool then
             modify (set_success_count (λ n, n + 1)) ;;;
             log INFO "View {i + 1} completed successfully"
           else
             modify (set_failed_count (λ n, n + 1)) ;;;
             log WARNING "View {i + 1} failed") ;;;
          on_browser_manager (BrowserManager.close_browser (driver w) browser)
      | None =>
          modify (set_failed_count (λ n, n + 1)) ;;;
          log ERROR "Failed to create browser for view {i + 1}"
      end) ;;;
     if (Z.of_nat i <? target_views - 1)%Z then
       delay <- _get_random_delay (delay_bits w) ;;
       log DEBUG "Waiting {delay} seconds before next view..." ;;;
       lift (time_sleep delay)
     else ret tt)
    (λ e, modify (set_failed_count (λ n, n + 1)) ;;;
          log ERROR "Error during view {i + 1}: {str(e)}").

Definition generate_views (w : nat → View) (video_url : string) (target_views : Z)
  : M t Z :=
  log INFO "Starting view generation for {target_views} views" ;;;
  for_each (seq 0 (Z.to_nat target_views))
    (λ i, generate_view (w i) video_url target_views i) ;;;
  log INFO "View generation completed. Success: {self.success_count}, Failed: {self.failed_count}" ;;;
  gets success_count.

(** *** Reference definitions for the statements about the counters *)

Definition counted (b : t) : Z := success_count b + failed_count b.

(** A world that raises subclasses of [Exception] only during a view. *)
Definition View_ordinary (w : View) : Prop :=
  (∀ k, ordinary (ProxyManager.requests_get (probes w) k)) ∧
  BrowserManager.Driver_ordinary (driver w) ∧
  ordinary (page_get w) ∧ ordinary (find_video w) ∧
  ordinary (scroll_script w) ∧ ordinary (find_body w) ∧
  ordinary (cursor_script w).

(** What a view looks at and what it counts. *)
Definition view_state (b : t) : ConfigManager.t * Z := (config b, counted b).

(** The delay that the wait after a view asks [time.sleep] for. *)
Definition wait_of (w : View) (b : t) : pyfloat :=
  match fst (_get_random_delay (delay_bits w) b) with
  | Return delay => delay
  | Raise _ => NaN
  end.

(** The wait after view [i] of [target_views] goes well: there is none, or
    [time.sleep] accepts the delay. *)
Definition wait_ok (w : View) (b : t) (target_views : Z) (i : nat) : Prop :=
  (Z.of_nat i <? target_views - 1)%Z = false ∨ time_sleep (wait_of w b) = Return tt.

(** How the [try] block of one view may end, from a state that had counted
    [c] views: normally, with one more view counted and the wait gone
    well; or with an [Exception], raised before the view was counted or by
    the wait after it was. *)
Definition view_post (cfg : ConfigManager.t) (c : Z) (waited : Prop)
    (r : result unit) (b : t) : Prop :=
  config b = cfg ∧
  match r with
  | Return _ => counted b = c + 1 ∧ waited
  | Raise e =>
      is_Exception e = true ∧
      (counted b = c ∨ (counted b = c + 1 ∧ ¬ waited))
  end.


(** A method during which the success counter grows by [k] at most, and
    never shrinks. *)
Definition successes_grow_by {A} (k : Z) (m : M t A) : Prop :=
  ∀ b, (success_count b ≤ success_count (snd (m b)) ≤ success_count b + k)%Z.

(** *** Sample values *)

(** The bot as its constructor leaves it when there is no proxy file. *)
Definition bot_with (cm : ConfigManager.t) : t :=
  {| config := cm; logger := [];
     proxy_manager :=
       snd (ProxyManager.__init__ (Some "proxies.txt") (Raise FileNotFoundError));
     browser_manager := {| BrowserManager.config := cm; BrowserManager.logger := [] |};
     success_count := 0; failed_count := 0 |}.

Definition unbounded_bot : t :=
  bot_with (snd (ConfigManager.__init__ "config.ini"
                   (ConfigManager.files_with ConfigManager.unbounded_store))).
Definition negative_bot : t :=
  bot_with (snd (ConfigManager.__init__ "config.ini"
                   (ConfigManager.files_with ConfigManager.negative_store))).
Definition default_bot : t :=
  bot_with (snd (ConfigManager.__init__ "config.ini" ConfigManager.no_file)).

(** A view during which everything works: the page loads, the video element
    is there, and every draw of the generator is [bits]. *)
Definition calm_view (bits : N) : View :=
  {| probes := ProxyManager.sample_probes; recursion_limit := 990;
     driver := BrowserManager.calm_driver;
     page_get := Return tt; load_bits := bits; find_video := Return true;
     scroll_bits := bits; scroll_script := Return tt; scroll_wait_bits := bits;
     mouse_bits := bits; find_body := Return tt; cursor_script := Return tt;
     pause_bits := bits; pause_wait_bits := bits;
     watch_bits := bits; delay_bits := bits |}.

(** A view for which the driver cannot be started. *)
Definition no_driver_view : View :=
  {| probes := ProxyManager.sample_probes; recursion_limit := 990;
     driver :=
       {| BrowserManager.ua_chrome := Return "Mozilla/5.0 (X11; Linux x86_64) Chrome/91.0";
          BrowserManager.fallback_draw := 0;
          BrowserManager.chrome := Raise Exception_;
          BrowserManager.size_draw := 1;
          BrowserManager.set_window_size := Return tt;
          BrowserManager.quit := Return tt |};
     page_get := Return tt; load_bits := 0; find_video := Return true;
     scroll_bits := 0; scroll_script := Return tt; scroll_wait_bits := 0;
     mouse_bits := 0; find_body := Return tt; cursor_script := Return tt;
     pause_bits := 0; pause_wait_bits := 0;
     watch_bits := 0; delay_bits := 0 |}.

(** A view that the user interrupts while the page loads. *)
Definition interrupted_view : View :=
  {| probes := ProxyManager.sample_probes; recursion_limit := 990;
     driver := BrowserManager.calm_driver;
     page_get := Raise KeyboardInterrupt; load_bits := 0; find_video := Return true;
     scroll_bits := 0; scroll_script := Return tt; scroll_wait_bits := 0;
     mouse_bits := 0; find_body := Return tt; cursor_script := Return tt;
     pause_bits := 0; pause_wait_bits := 0;
     watch_bits := 0; delay_bits := 0 |}.

End YouTubeBot.

(* --------------------------------------------------------------------- *)
(** ** main.py                                                            *)
(* --------------------------------------------------------------------- *)

Module Main.

(** The namespace produced by [argparse]. *)
Record Args : Type := {
  url : string;
  views : Z;
  config : string;
  log_level : level;
  dry_run : bool
}.

(** The command line as [parse_args] judges it: accepted, rejected (usage
    message, [SystemExit(2)]) or a request for help ([SystemExit(0)]). *)
Inductive CommandLine : Type :=
  | Parsed (args : Args)
  | Malformed
  | Help.

(** Everything outside the process during one run. *)
Record World : Type := {
  command_line : CommandLine;
  logging_setup : result unit;       (* [logging.basicConfig], opening the log file *)
  files : ConfigManager.Files;
  proxy_lines : result (list string);
  ua_init : result unit;             (* [UserAgent()] in [BrowserManager.__init__] *)
  view : nat → YouTubeBot.View
}.

(** The module-level state of [main]: its logger and the bot it built. *)
Record t : Type := {
  logger : list log_record;
  bot : option YouTubeBot.t
}.

Definition initial : t := {| logger := []; bot := None |}.

Definition log (lvl : level) (msg : string) : M t unit :=
  modify (λ p, {| logger := logger p ++ [(lvl, msg)]; bot := bot p |}).

Definition set_bot (b : YouTubeBot.t) (p : t) : t :=
  {| logger := logger p; bot := Some b |}.

Local Open Scope method_scope.

Definition parse_args (w : World) : M t Args :=
  match command_line w with
  | Parsed args => ret args
  | Malformed => raise (SystemExit 2)
  | Help => raise (SystemExit 0)
  end.

(** A method call on the bot [b] that the process holds. *)
Definition on_bot {A} (b : YouTubeBot.t) (m : M YouTubeBot.t A) : M t A :=
  λ p, let '(r, b') := m b in (r, set_bot b' p).

Definition main (w : World) : M t unit :=
  args <- parse_args w ;;
  lift (logging_setup w) ;;;
  try_catch
    (let '(r, config_manager) := ConfigManager.__init__ (config args) (files w) in
     lift r ;;;
     b <- lift (YouTubeBot.__init__ config_manager (proxy_lines w) (ua_init w)) ;;
     modify (set_bot b) ;;;
     log INFO "Starting YouTube bot for URL: {args.url}" ;;;
     log INFO "Target views: {args.views}" ;;;
     log INFO "Dry run mode: {args.dry_run}" ;;;
     if dry_run args then
       log INFO "DRY RUN MODE - No actual views will be generated"
     else
       success_count <-
         on_bot b (YouTubeBot.generate_views (view w) (url args) (views args)) ;;
       log INFO "Bot completed. Successful views: {success_count}/{args.views}")
    (λ e, match e with
          | KeyboardInterrupt => Some (log INFO "Bot stopped by user")
          | _ =>
              if is_Exception e
              then Some (log ERROR "Bot failed with error: {str(e)}" ;;; raise (SystemExit 1))
              else None
          end).

(** The exit status of the interpreter after [main()]. *)
Definition exit_status (r : result unit) : Z :=
  match r with
  | Return _ => 0
  | Raise (SystemExit code) => code
  | Raise KeyboardInterrupt => 130
  | Raise _ => 1
  end.

(** A world in which configuration loading, proxy loading, browser
    creation, view simulation and browser teardown raise subclasses of
    [Exception] only. *)
Definition World_ordinary (w : World) : Prop :=
  ordinary (ConfigManager.read (files w)) ∧
  ordinary (ConfigManager.write (files w)) ∧
  ordinary (proxy_lines w) ∧
  (∀ i, YouTubeBot.View_ordinary (view w i)).

(** *** Sample values *)

Definition sample_args : Args :=
  {| url := "https://youtu.be/x"; views := 2; config := "config.ini";
     log_level := INFO; dry_run := false |}.

(** A run in which everything works. *)
Definition calm_world : World :=
  {| command_line := Parsed sample_args; logging_setup := Return tt;
     files := ConfigManager.no_file;
     proxy_lines := Return ["10.0.0.7:3128"];
     ua_init := Return tt;
     view := λ _, YouTubeBot.calm_view 0 |}.

(** The same run, except that [UserAgent()] raises while the browser
    manager is constructed. *)
Definition no_user_agent_world : World :=
  {| command_line := Parsed sample_args; logging_setup := Return tt;
     files := ConfigManager.no_file;
     proxy_lines := Return ["10.0.0.7:3128"];
     ua_init := Raise Exception_;
     view := λ _, YouTubeBot.calm_view 0 |}.

(** The run in which everything works, asked for a dry run. *)
Definition dry_run_args : Args :=
  {| url := "https://youtu.be/x"; views := 2; config := "config.ini";
     log_level := INFO; dry_run := true |}.

Definition dry_run_world : World :=
  {| command_line := Parsed dry_run_args; logging_setup := Return tt;
     files := ConfigManager.no_file;
     proxy_lines := Return ["10.0.0.7:3128"];
     ua_init := Return tt;
     view := λ _, YouTubeBot.calm_view 0 |}.

(** A run that the user interrupts while the first page loads. *)
Definition interrupted_world : World :=
  {| command_line := Parsed sample_args; logging_setup := Return tt;
     files := ConfigManager.no_file;
     proxy_lines := Return ["10.0.0.7:3128"];
     ua_init := Return tt;
     view := λ _, YouTubeBot.interrupted_view |}.

(** The bot that the constructor builds in these runs. *)
Definition sample_bot : YouTubeBot.t :=
  match YouTubeBot.__init__
          (snd (ConfigManager.__init__ "config.ini" ConfigManager.no_file))
          (Return ["10.0.0.7:3128"]) (Return tt) with
  | Return b => b
  | Raise _ => YouTubeBot.default_bot
  end.

End Main.

(* ===================================================================== *)
(** * Part II: properties                                                 *)
(* ===================================================================== *)

(** ** Strings *)

#[local] Arguments Ascii.eqb : simpl never.

Lemma app_cons (c : ascii) (s t : string) : String c s +:+ t = String c (s +:+ t).
Proof. reflexivity. Qed.

(** A field without a colon is read up to the next colon. *)
Lemma split_go_colon_app (h rest : string) :
  contains ":" h = false →
  split_go ":" 0 (h +:+ String ":" rest)
  = (h, let '(f, r) := split_go ":" 0 rest in f :: r).
Proof.
  induction h as [|c h IH]; intros Hc.
  - reflexivity.
  - rewrite app_cons. simpl in Hc |- *.
    destruct (Ascii.eqb ":" c); simpl in Hc |- *; [discriminate|].
    rewrite (IH Hc). reflexivity.
Qed.

Lemma split_go_colon_last (h : string) :
  contains ":" h = false → split_go ":" 0 h = (h, []).
Proof.
  induction h as [|c h IH]; intros Hc; [reflexivity|].
  simpl in Hc |- *.
  destruct (Ascii.eqb ":" c); simpl in Hc |- *; [discriminate|].
  rewrite (IH Hc). reflexivity.
Qed.

Lemma split_colon_app (h rest : string) :
  contains ":" h = false →
  split ":" (h +:+ String ":" rest) = h :: split ":" rest.
Proof. intros Hc. unfold split. rewrite (split_go_colon_app _ _ Hc). reflexivity. Qed.

Lemma split_colon_last (h : string) :
  contains ":" h = false → split ":" h = [h].
Proof. intros Hc. unfold split. rewrite (split_go_colon_last _ Hc). reflexivity. Qed.

(** Every split has a first field. *)
Lemma split_cons (sep s : string) : ∃ f r, split sep s = f :: r.
Proof. unfold split. destruct (split_go sep 0 s) as [f r]. eauto. Qed.

(** [rstrip] keeps a leading character that is not white space. *)
Lemma rstrip_keeps_head (c : ascii) (s : string) :
  isspace c = false → ∃ t, rstrip (String c s) = String c t.
Proof.
  intros Hc. simpl. destruct (rstrip s); rewrite ?Hc; eauto.
Qed.

Lemma strip_keeps_head (c : ascii) (s : string) :
  isspace c = false → ∃ t, strip (String c s) = String c t.
Proof.
  intros Hc. unfold strip. simpl. rewrite Hc. by apply rstrip_keeps_head.
Qed.

(** A text that starts with a slash is not an integer literal. *)
Lemma py_int_slash (s : string) : py_int (String "/" s) = None.
Proof.
  unfold py_int. destruct (strip_keeps_head "/" s eq_refl) as [t ->]. reflexivity.
Qed.

(** ** Running methods *)

Ltac run :=
  unfold try_except, try_catch, try_bare, bind, ret, raise, lift, gets, modify, zoom;
  simpl.

(** Case analysis on the scrutinee of a [match] of the goal. *)
Ltac goal_match :=
  match goal with
  | |- context [match ?x with _ => _ end] => destruct x eqn:?
  end.

(** ** The method monad *)

Section Monad.
Context {S : Type}.

Lemma ordinary_Return {A} (a : A) : ordinary (Return a).
Proof. by intros e. Qed.

Lemma ordinary_Raise {A} (e : exn) : is_Exception e = true → ordinary (@Raise A e).
Proof. by intros He e' [= <-]. Qed.

Lemma total_safe {A} (m : M S A) : total m → safe m.
Proof. intros Hm s e He. destruct (Hm s) as [a Ha]. congruence. Qed.

Lemma safe_ret {A} (a : A) : safe (ret a : M S A).
Proof. by intros s e. Qed.

Lemma safe_gets {A} (f : S → A) : safe (gets f).
Proof. by intros s e. Qed.

Lemma safe_modify (f : S → S) : safe (modify f).
Proof. by intros s e. Qed.

Lemma safe_lift {A} (r : result A) : ordinary r → safe (lift r : M S A).
Proof. intros Hr s. exact Hr. Qed.

Lemma safe_raise {A} (e : exn) : is_Exception e = true → safe (raise e : M S A).
Proof. intros He s. by apply ordinary_Raise. Qed.

Lemma safe_bind {A B} (m : M S A) (k : A → M S B) :
  safe m → (∀ a, safe (k a)) → safe (bind m k).
Proof.
  intros Hm Hk s e. unfold bind. specialize (Hm s).
  destruct (m s) as [[a|e'] s']; simpl in *.
  - apply Hk.
  - intros [= <-]. by apply Hm.
Qed.

Lemma safe_try_except {A} (body : M S A) (handler : exn → M S A) :
  safe body → (∀ e, safe (handler e)) → safe (try_except body handler).
Proof.
  intros Hb Hh s e. unfold try_except. specialize (Hb s).
  destruct (body s) as [[a|e'] s']; simpl in *; [done|].
  rewrite (Hb e' eq_refl). apply Hh.
Qed.

Lemma safe_try_bare {A} (body handler : M S A) :
  safe handler → safe body → safe (try_bare body handler).
Proof.
  intros Hh Hb s e. unfold try_bare. specialize (Hb s).
  destruct (body s) as [[a|e'] s']; simpl in *; [done|]. apply Hh.
Qed.

Lemma safe_zoom {T A} (get : S → T) (set : T → S → S) (m : M T A) :
  safe m → safe (zoom get set m).
Proof.
  intros Hm s e. unfold zoom. specialize (Hm (get s)).
  destruct (m (get s)) as [r t]. exact (Hm e).
Qed.

Lemma safe_for_each {A} (l : list A) (body : A → M S unit) :
  (∀ x, safe (body x)) → safe (for_each l body).
Proof.
  intros Hb. induction l as [|x l IH]; simpl.
  - apply safe_ret.
  - apply safe_bind; [apply Hb|intros _; exact IH].
Qed.

Lemma total_ret {A} (a : A) : total (ret a : M S A).
Proof. intros s. by exists a. Qed.

Lemma total_gets {A} (f : S → A) : total (gets f).
Proof. intros s. by eexists. Qed.

Lemma total_modify (f : S → S) : total (modify f).
Proof. intros s. by eexists. Qed.

Lemma total_lift {A} (a : A) : total (lift (Return a) : M S A).
Proof. intros s. by exists a. Qed.

Lemma total_bind {A B} (m : M S A) (k : A → M S B) :
  total m → (∀ a, total (k a)) → total (bind m k).
Proof.
  intros Hm Hk s. unfold bind. destruct (Hm s) as [a Ha].
  destruct (m s) as [r s']; simpl in *; subst r. apply Hk.
Qed.

(** A [try ... except Exception] whose body raises nothing else and whose
    handler returns always returns. *)
Lemma total_try_except {A} (body : M S A) (handler : exn → M S A) :
  safe body → (∀ e, total (handler e)) → total (try_except body handler).
Proof.
  intros Hb Hh s. unfold try_except. specialize (Hb s).
  destruct (body s) as [[a|e] s']; simpl in *; [by exists a|].
  rewrite (Hb e eq_refl). apply Hh.
Qed.

Lemma total_try_bare {A} (body handler : M S A) :
  total handler → total (try_bare body handler).
Proof.
  intros Hh s. unfold try_bare.
  destruct (body s) as [[a|e] s']; simpl in *; [by exists a|]. apply Hh.
Qed.

Lemma total_zoom {T A} (get : S → T) (set : T → S → S) (m : M T A) :
  total m → total (zoom get set m).
Proof.
  intros Hm s. unfold zoom. destruct (Hm (get s)) as [a Ha].
  destruct (m (get s)) as [r t]. by exists a.
Qed.

Lemma total_for_each {A} (l : list A) (body : A → M S unit) :
  (∀ x, total (body x)) → total (for_each l body).
Proof.
  intros Hb. induction l as [|x l IH]; simpl.
  - apply total_ret.
  - apply total_bind; [apply Hb|intros _; exact IH].
Qed.

Lemma keeps_ret {A B} (f : S → B) (a : A) : keeps f (ret a).
Proof. by intros s. Qed.

Lemma keeps_raise {A B} (f : S → B) (e : exn) : keeps f (raise e : M S A).
Proof. by intros s. Qed.

Lemma keeps_lift {A B} (f : S → B) (r : result A) : keeps f (lift r).
Proof. by intros s. Qed.

Lemma keeps_gets {A B} (f : S → B) (g : S → A) : keeps f (gets g).
Proof. by intros s. Qed.

Lemma keeps_modify {B} (f : S → B) (g : S → S) :
  (∀ s, f (g s) = f s) → keeps f (modify g).
Proof. intros Hg s. apply Hg. Qed.

Lemma keeps_bind {A B C} (f : S → C) (m : M S A) (k : A → M S B) :
  keeps f m → (∀ a, keeps f (k a)) → keeps f (bind m k).
Proof.
  intros Hm Hk s. unfold bind. specialize (Hm s).
  destruct (m s) as [[a|e] s']; simpl in *; [|done].
  rewrite <- Hm. apply Hk.
Qed.

Lemma keeps_try_except {A B} (f : S → B) (body : M S A) (handler : exn → M S A) :
  keeps f body → (∀ e, keeps f (handler e)) → keeps f (try_except body handler).
Proof.
  intros Hb Hh s. unfold try_except. specialize (Hb s).
  destruct (body s) as [[a|e] s']; simpl in *; [done|].
  destruct (is_Exception e); [|done]. rewrite <- Hb. apply Hh.
Qed.

Lemma keeps_try_bare {A B} (f : S → B) (body handler : M S A) :
  keeps f body → keeps f handler → keeps f (try_bare body handler).
Proof.
  intros Hb Hh s. unfold try_bare. specialize (Hb s).
  destruct (body s) as [[a|e] s']; simpl in *; [done|].
  rewrite <- Hb. apply Hh.
Qed.

(** A method of a component keeps whatever the component's setter keeps. *)
Lemma keeps_zoom {T A B} (f : S → B) (get : S → T) (set : T → S → S) (m : M T A) :
  (∀ t s, f (set t s) = f s) → keeps f (zoom get set m).
Proof.
  intros Hset s. unfold zoom. destruct (m (get s)) as [r t]. apply Hset.
Qed.

Lemma keeps_for_each {A B} (f : S → B) (l : list A) (body : A → M S unit) :
  (∀ x, keeps f (body x)) → keeps f (for_each l body).
Proof.
  intros Hb. induction l as [|x l IH]; simpl.
  - apply keeps_ret.
  - apply keeps_bind; [apply Hb|intros _; exact IH].
Qed.

Lemma hoare_bind {A B} (P : S → Prop) (m : M S A) (k : A → M S B)
    (R : A → S → Prop) (Q : result B → S → Prop) :
  hoare P m (λ r s, match r with Return a => R a s | Raise e => Q (Raise e) s end) →
  (∀ a, hoare (R a) (k a) Q) →
  hoare P (bind m k) Q.
Proof.
  intros Hm Hk s Hs. unfold bind. specialize (Hm s Hs).
  destruct (m s) as [[a|e] s']; simpl in *; [by apply Hk|done].
Qed.

Lemma hoare_try_except {A} (P : S → Prop) (body : M S A) (handler : exn → M S A)
    (R : exn → S → Prop) (Q : result A → S → Prop) :
  hoare P body (λ r s, match r with
                       | Return a => Q (Return a) s
                       | Raise e => if is_Exception e then R e s else Q (Raise e) s
                       end) →
  (∀ e, hoare (R e) (handler e) Q) →
  hoare P (try_except body handler) Q.
Proof.
  intros Hb Hh s Hs. unfold try_except. specialize (Hb s Hs).
  destruct (body s) as [[a|e] s']; simpl in *; [done|].
  destruct (is_Exception e); [by apply Hh|done].
Qed.

Lemma hoare_conseq {A} (P P' : S → Prop) (m : M S A) (Q Q' : result A → S → Prop) :
  (∀ s, P s → P' s) → (∀ r s, Q' r s → Q r s) → hoare P' m Q' → hoare P m Q.
Proof. intros HP HQ Hm s Hs. by apply HQ, Hm, HP. Qed.

Lemma hoare_safe_keeps {A B} (f : S → B) (x : B) (m : M S A) :
  safe m → keeps f m →
  hoare (λ s, f s = x) m (λ r s, ordinary r ∧ f s = x).
Proof. intros Hs Hk s <-. split; [apply Hs|apply Hk]. Qed.

Lemma hoare_total_keeps {A B} (f : S → B) (x : B) (m : M S A) :
  total m → keeps f m →
  hoare (λ s, f s = x) m (λ r s, (∃ a, r = Return a) ∧ f s = x).
Proof. intros Ht Hk s <-. split; [apply Ht|apply Hk]. Qed.

End Monad.

Lemma getitem_ordinary {A} (l : list A) (i : nat) : ordinary (getitem l i).
Proof. unfold getitem. destruct (l !! i); [apply ordinary_Return|by apply ordinary_Raise]. Qed.

Lemma int_ordinary (s : string) : ordinary (int_ s).
Proof. unfold int_. destruct (py_int s); [apply ordinary_Return|by apply ordinary_Raise]. Qed.

Lemma random_choice_ordinary {A} (draw : nat) (l : list A) : ordinary (random_choice draw l).
Proof.
  unfold random_choice. destruct (l !! _); [apply ordinary_Return|by apply ordinary_Raise].
Qed.

Lemma time_sleep_ordinary (secs : pyfloat) : ordinary (time_sleep secs).
Proof.
  destruct secs as [q| | |]; simpl; try by apply ordinary_Raise.
  destruct (Qle_bool 0 q); [apply ordinary_Return|by apply ordinary_Raise].
Qed.

(** Structural steps for goals about [safe], [total] and [keeps]. *)
Ltac method_step :=
  lazymatch goal with
  | |- safe (bind _ _) => apply safe_bind; [|intros ?]
  | |- safe (ret _) => apply safe_ret
  | |- safe (gets _) => apply safe_gets
  | |- safe (modify _) => apply safe_modify
  | |- safe (lift (getitem _ _)) => apply safe_lift, getitem_ordinary
  | |- safe (lift (int_ _)) => apply safe_lift, int_ordinary
  | |- safe (lift (random_choice _ _)) => apply safe_lift, random_choice_ordinary
  | |- safe (lift (time_sleep _)) => apply safe_lift, time_sleep_ordinary
  | |- safe (try_except _ _) => apply safe_try_except; [|intros ?]
  | |- safe (try_bare _ _) => apply safe_try_bare
  | |- safe (for_each _ _) => apply safe_for_each; intros ?
  | |- safe (zoom _ _ _) => apply safe_zoom
  | |- total (zoom _ _ _) => apply total_zoom
  | |- total (bind _ _) => apply total_bind; [|intros ?]
  | |- total (ret _) => apply total_ret
  | |- total (gets _) => apply total_gets
  | |- total (modify _) => apply total_modify
  | |- total (try_except _ _) => apply total_try_except; [|intros ?]
  | |- total (try_bare _ _) => apply total_try_bare
  | |- total (for_each _ _) => apply total_for_each; intros ?
  | |- keeps _ (bind _ _) => apply keeps_bind; [|intros ?]
  | |- keeps _ (ret _) => apply keeps_ret
  | |- keeps _ (raise _) => apply keeps_raise
  | |- keeps _ (lift _) => apply keeps_lift
  | |- keeps _ (gets _) => apply keeps_gets
  | |- keeps _ (modify _) => apply keeps_modify; intros ?; try done
  | |- keeps _ (try_except _ _) => apply keeps_try_except; [|intros ?]
  | |- keeps _ (try_bare _ _) => apply keeps_try_bare
  | |- keeps _ (for_each _ _) => apply keeps_for_each; intros ?
  | |- _ (if ?b then _ else _) => destruct b
  | |- _ (match ?x with _ => _ end) => destruct x
  | |- _ _ (match ?x with _ => _ end) => destruct x
  | |- _ _ (if ?b then _ else _) => destruct b
  end.

(** ** Proxy lines *)

Section ProxyLines.
Import ProxyManager.

(** The [try] block of the parser reads no state and writes none. *)
Lemma parse_try_pure (line : string) (pm pm' : t) :
  snd (_parse_proxy_line_try line pm) = pm ∧
  fst (_parse_proxy_line_try line pm) = fst (_parse_proxy_line_try line pm').
Proof.
  unfold _parse_proxy_line_try. run.
  repeat case_match; simplify_eq/=; done.
Qed.

(** It raises nothing but [Exception]s. *)
Lemma parse_try_safe (line : string) : safe (_parse_proxy_line_try line).
Proof.
  unfold _parse_proxy_line_try. simpl. repeat method_step.
Qed.

Lemma parse_try_raises (line : string) (pm : t) (e : exn) :
  fst (_parse_proxy_line_try line pm) = Raise e → is_Exception e = true.
Proof. apply parse_try_safe. Qed.

Lemma parse_spec (line : string) (pm : t) :
  ∃ msgs, _parse_proxy_line line pm
          = (Return (parsed_entry line), set_logger (λ l, l ++ msgs) pm).
Proof.
  destruct (parse_try_pure line pm blank) as [Hs Hf].
  pose proof (parse_try_raises line pm) as He.
  unfold parsed_entry, _parse_proxy_line, try_except.
  destruct (_parse_proxy_line_try line blank) as [rb sb].
  destruct (_parse_proxy_line_try line pm) as [r s'].
  simpl in *. subst s' rb.
  destruct r as [v|e].
  - exists []. destruct v, pm; unfold set_logger; simpl; by rewrite app_nil_r.
  - rewrite (He e eq_refl). eexists. run. reflexivity.
Qed.

(** [host:port] *)
Lemma parse_host_port (h ports : string) (n : Z) (pm : t) :
  contains ":" h = false → contains "//" h = false →
  contains ":" ports = false → py_int ports = Some n →
  _parse_proxy_line (h +:+ ":" +:+ ports) pm
  = (Return (Some {| host := h; port := n; protocol := Some "http";
                     username := None; password := None |}), pm).
Proof.
  intros Hh Hs Hp Hn.
  unfold _parse_proxy_line, _parse_proxy_line_try.
  change (h +:+ ":" +:+ ports) with (h +:+ String ":" ports).
  rewrite (split_colon_app _ _ Hh), (split_colon_last _ Hp).
  run. rewrite Hs. unfold int_. rewrite Hn. reflexivity.
Qed.






(** After the scheme, the second colon-separated field starts with the two
    slashes. *)
Lemma split_colon_slashes (rest : string) :
  ∃ f r, split ":" (String "/" (String "/" rest)) = String "/" (String "/" f) :: r.
Proof.
  unfold split. simpl. change (Ascii.eqb ":" "/") with false. simpl.
  destruct (split_go ":" 0 rest) as [f r]. eauto.
Qed.

(** X3.  [protocol://host:port]: whatever the scheme and the rest, the line
    is rejected ([None] is returned), because the text after the first colon,
    which starts with the two slashes, is read as the port. *)
Lemma parse_scheme_url (scheme rest : string) (pm : t) :
  contains ":" scheme = false →
  fst (_parse_proxy_line (scheme +:+ "://" +:+ rest) pm) = Return None.
Proof.
  intros Hc.
  unfold _parse_proxy_line, _parse_proxy_line_try.
  change (scheme +:+ "://" +:+ rest)
    with (scheme +:+ String ":" (String "/" (String "/" rest))).
  rewrite (split_colon_app _ _ Hc).
  destruct (split_colon_slashes rest) as (f & r & ->).
  unfold int_. run. rewrite py_int_slash.
  destruct (contains "//" scheme); simpl; [|reflexivity].
  destruct (split_cons "//" scheme) as (f0 & r0 & ->).
  destruct r0; reflexivity.
Qed.

Lemma parse_scheme_url_witness :
  fst (_parse_proxy_line "socks5://10.0.0.9:1080" blank) = Return None.
Proof. apply (parse_scheme_url "socks5" "10.0.0.9:1080" blank). reflexivity. Defined.


(** C1, at the failing input.  The line [http://1.2.3.4:8080] has the third
    format that the comment of [_parse_proxy_line] lists as supported
    ([protocol://host:port]), yet it is not parsed: the method logs a warning
    and returns [None], so there is no record whose host, port and protocol
    could be formatted back.  ([parse_scheme_url] shows the same for every
    scheme; [format_parse_host_port] and [format_parse_host_port_user_pass]
    show that the two other formats do round-trip.) *)
Theorem parse_protocol_url_is_rejected (pm : t) :
  _parse_proxy_line "http://1.2.3.4:8080" pm
  = (Return None,
     set_logger (λ l, l ++ [(WARNING, "Failed to parse proxy line '{line}': {str(e)}")]) pm)
  ∧ parsed_entry "http://1.2.3.4:8080" = None.
Proof. split; reflexivity. Qed.



(** ** Loading the proxy file *)

(** One turn of the loop of [load_proxies] appends the entry of the line,
    if it has one, and leaves the other lists alone. *)
Lemma load_line_spec (raw : string) (pm : t) :
  ∃ pm',
    load_line raw pm = (Return tt, pm') ∧
    proxies pm' = proxies pm ++ option_list (entry_of_line raw) ∧
    working_proxies pm' = working_proxies pm ∧
    failed_proxies pm' = failed_proxies pm.
Proof.
  unfold load_line, entry_of_line.
  destruct (String.eqb (strip raw) "") eqn:Hb, (startswith "#" (strip raw)) eqn:Hc;
    simpl; try (exists pm; by rewrite app_nil_r).
  unfold bind. destruct (parse_spec (strip raw) pm) as [msgs ->].
  destruct (parsed_entry (strip raw)) as [p|]; simpl; eexists; split; try done.
  simpl. by rewrite app_nil_r.
Qed.




End ProxyLines.

(** ** Drawing proxies *)

Section Draws.
Import ProxyManager.

Lemma set_logger_nil (pm : t) : set_logger (λ l, l ++ []) pm = pm.
Proof. destruct pm. unfold set_logger. simpl. by rewrite app_nil_r. Qed.

Lemma random_choice_elem {A} (draw : nat) (l : list A) (x : A) :
  random_choice draw l = Return x → x ∈ l.
Proof.
  unfold random_choice. destruct (l !! _) eqn:E; intros [= <-].
  by eapply list_elem_of_lookup_2.
Qed.

(** A non-empty sequence always yields an element. *)
Lemma random_choice_nonempty {A} (draw : nat) (l : list A) :
  l ≠ [] → ∃ x, random_choice draw l = Return x.
Proof.
  intros Hl. unfold random_choice.
  destruct (lookup_lt_is_Some_2 l (draw mod length l)%nat) as [x ->]; [|eauto].
  apply Nat.mod_upper_bound. destruct l; simpl; [done|lia].
Qed.

(** The probe only writes to the log, and an [Exception] never leaves it. *)
Lemma _test_proxy_spec (response : string → result Z) (proxy : Proxy) (pm : t) :
  ∃ r msgs,
    _test_proxy response proxy pm = (r, set_logger (λ l, l ++ msgs) pm) ∧
    (∀ e, r = Raise e → is_Exception e = false).
Proof.
  unfold _test_proxy. run.
  destruct (response (_format_proxy_url proxy)) as [status|e].
  - destruct (status =? 200)%Z; eexists _, _; split; try done.
  - destruct (is_Exception e) eqn:He; simpl.
    + eexists _, _; split; try done.
    + exists (Raise e), []. rewrite set_logger_nil. split; [done|]. by intros ? [= <-].
Qed.

(** [get_random_proxy], one call unfolded. *)
Lemma get_random_proxy_S (w : Probes) (limit depth : nat) (pm : t) :
  get_random_proxy w (S limit) depth pm =
    if bool_decide (proxies pm = []) then (Return None, pm) else
    let available :=
      filter (λ p, _proxy_key p ∉ failed_proxies pm) (proxies pm) in
    if bool_decide (available = []) then
      (Return None,
       set_logger (λ l, l ++ [(WARNING, "No working proxies available")]) pm)
    else
      match random_choice (choice w depth) available with
      | Raise e => (Raise e, pm)
      | Return proxy =>
          if (bool_decide (_proxy_key proxy ∈ failed_proxies pm)
              || bool_decide (proxy ∈ working_proxies pm))%bool
          then (Return (Some proxy), pm)
          else
            match _test_proxy (λ _, requests_get w depth) proxy pm with
            | (Return true, pm1) =>
                (Return (Some proxy), set_working_proxies (λ l, l ++ [proxy]) pm1)
            | (Return false, pm1) =>
                get_random_proxy w limit (S depth)
                  (set_failed_proxies (λ f, f ∪ {[ _proxy_key proxy ]}) pm1)
            | (Raise e, pm1) => (Raise e, pm1)
            end
      end.
Proof.
  simpl. unfold _is_proxy_tested. run.
  repeat case_bool_decide; try done.
  all: destruct (random_choice _ _) as [proxy|e]; simpl; try done.
  all: destruct (_ || _)%bool; simpl; try done.
  all: destruct (_test_proxy _ _ _) as [[[]|] ?]; done.
Qed.

(** One call either finishes without calling itself, whatever the allowance,
    or it has drawn a proxy of the list whose key was not in the failed set,
    has added that key, and continues with a nested call.  In the first case
    the proxy returned, if any, is from the list and its key is not in the
    failed set; the failed set is as before. *)
Lemma get_random_proxy_step (w : Probes) (depth : nat) (pm : t) :
  (∃ out,
     (∀ limit, get_random_proxy w (S limit) depth pm = out) ∧
     fst out ≠ Raise RecursionError ∧
     proxies (snd out) = proxies pm ∧
     failed_proxies (snd out) = failed_proxies pm ∧
     (∀ p, fst out = Return (Some p) →
           p ∈ proxies pm ∧ _proxy_key p ∉ failed_proxies pm))
  ∨ (∃ proxy pm1,
       (∀ limit, get_random_proxy w (S limit) depth pm
                 = get_random_proxy w limit (S depth) pm1) ∧
       proxy ∈ proxies pm ∧
       (_proxy_key proxy ∉ failed_proxies pm) ∧
       proxies pm1 = proxies pm ∧
       failed_proxies pm1 = failed_proxies pm ∪ {[ _proxy_key proxy ]}).
Proof.
  destruct (decide (proxies pm = [])) as [Hnil|Hnil].
  { left. exists (Return None, pm). split_and!; try done.
    intros limit. by rewrite get_random_proxy_S, bool_decide_true. }
  destruct (decide (filter (λ p, _proxy_key p ∉ failed_proxies pm) (proxies pm) = []))
    as [Hav|Hav].
  { left.
    exists (Return None,
            set_logger (λ l, l ++ [(WARNING, "No working proxies available")]) pm).
    split_and!; try done.
    intros limit. rewrite get_random_proxy_S, bool_decide_false by done.
    simpl. by rewrite bool_decide_true. }
  destruct (random_choice_nonempty (choice w depth) _ Hav) as [proxy Hrc].
  pose proof (random_choice_elem _ _ _ Hrc) as [Hkey Hin]%list_elem_of_filter.
  destruct (bool_decide (_proxy_key proxy ∈ failed_proxies pm)
            || bool_decide (proxy ∈ working_proxies pm))%bool eqn:Htested.
  { left. exists (Return (Some proxy), pm). split_and!; try done.
    - intros limit. rewrite get_random_proxy_S, bool_decide_false by done.
      simpl. rewrite bool_decide_false by done. by rewrite Hrc, Htested.
    - by intros p [= <-]. }
  destruct (_test_proxy_spec (λ _, requests_get w depth) proxy pm)
    as (r & msgs & Htest & Hexc).
  destruct r as [[|]|e].
  - left. eexists (Return (Some proxy), _). split_and!.
    + intros limit. rewrite get_random_proxy_S, bool_decide_false by done.
      simpl. rewrite bool_decide_false by done.
      rewrite Hrc, Htested, Htest. reflexivity.
    + done.
    + done.
    + done.
    + by intros p [= <-].
  - right.
    exists proxy, (set_failed_proxies (λ f, f ∪ {[ _proxy_key proxy ]})
                     (set_logger (λ l, l ++ msgs) pm)).
    split_and!; try done.
    intros limit. rewrite get_random_proxy_S, bool_decide_false by done.
      simpl. rewrite bool_decide_false by done.
      rewrite Hrc, Htested, Htest. reflexivity.
  - left. eexists (Raise e, _). split_and!.
    + intros limit. rewrite get_random_proxy_S, bool_decide_false by done.
      simpl. rewrite bool_decide_false by done.
      rewrite Hrc, Htested, Htest. reflexivity.
    + simpl. intros [= ->]. by specialize (Hexc _ eq_refl).
    + done.
    + done.
    + done.
Qed.

(** What every call preserves, by induction on the allowance. *)
Lemma get_random_proxy_inv (w : Probes) (limit depth : nat) (pm : t) :
  proxies (snd (get_random_proxy w limit depth pm)) = proxies pm ∧
  failed_proxies pm ⊆ failed_proxies (snd (get_random_proxy w limit depth pm)) ∧
  (∀ p, fst (get_random_proxy w limit depth pm) = Return (Some p) →
        p ∈ proxies pm ∧
        _proxy_key p ∉ failed_proxies (snd (get_random_proxy w limit depth pm))).
Proof.
  revert depth pm. induction limit as [|limit IH]; intros depth pm.
  { simpl. split_and!; done. }
  destruct (get_random_proxy_step w depth pm)
    as [(out & Hout & _ & Hp & Hf & Hret)
       |(proxy & pm1 & Hrec & Hin & Hkey & Hp & Hf)].
  - rewrite Hout, Hp, Hf. split_and!; try done.
  - rewrite Hrec. destruct (IH (S depth) pm1) as (IHp & IHf & IHret).
    rewrite IHp, Hp. split_and!; [done| |].
    + intros k Hk. apply IHf. rewrite Hf. by apply elem_of_union_l.
    + intros p Hr. destruct (IHret p Hr) as [? ?]. by rewrite <- Hp.
Qed.

Lemma mark_proxy_failed_spec (proxy : Proxy) (pm : t) :
  fst (mark_proxy_failed proxy pm) = Return tt ∧
  proxies (snd (mark_proxy_failed proxy pm)) = proxies pm ∧
  failed_proxies (snd (mark_proxy_failed proxy pm))
  = failed_proxies pm ∪ {[ _proxy_key proxy ]}.
Proof. unfold mark_proxy_failed. run. by case_bool_decide. Qed.

Lemma run_call_failed_mono (c : Call) (pm : t) :
  failed_proxies pm ⊆ failed_proxies (run_call c pm).
Proof.
  destruct c as [w limit|proxy]; simpl.
  - apply get_random_proxy_inv.
  - destruct (mark_proxy_failed_spec proxy pm) as (_ & _ & ->).
    apply union_subseteq_l.
Qed.

Lemma run_calls_failed_mono (cs : list Call) (pm : t) :
  failed_proxies pm ⊆ failed_proxies (run_calls cs pm).
Proof.
  revert pm. induction cs as [|c cs IH]; intros pm; simpl; [done|].
  etrans; [apply (run_call_failed_mono c)|apply IH].
Qed.

(** C2.  In any state of the manager (so in every reachable one), and for
    all answers of the random generator and of the probes: no operation
    removes a key from the failed set; [mark_proxy_failed] and a failed probe
    inside [get_random_proxy] put the proxy's key into it; and once a key is
    in the failed set, no later call of [get_random_proxy], after any further
    calls, returns a proxy with that key. *)
Theorem failed_proxy_never_returned (pm : t) :
  (∀ c, failed_proxies pm ⊆ failed_proxies (run_call c pm)) ∧
  (∀ proxy, _proxy_key proxy ∈ failed_proxies (run_call (CallMark proxy) pm)) ∧
  (∀ w depth,
     (∃ out, ∀ limit, get_random_proxy w (S limit) depth pm = out) ∨
     (∃ proxy pm1,
        (∀ limit, get_random_proxy w (S limit) depth pm
                  = get_random_proxy w limit (S depth) pm1) ∧
        _proxy_key proxy ∈ failed_proxies pm1)) ∧
  (∀ key later w limit p pm',
     key ∈ failed_proxies pm →
     get_random_proxy w limit 0 (run_calls later pm) = (Return (Some p), pm') →
     _proxy_key p ≠ key).
Proof.
  split_and!.
  - intros c. apply run_call_failed_mono.
  - intros proxy. simpl.
    destruct (mark_proxy_failed_spec proxy pm) as (_ & _ & ->).
    apply elem_of_union_r. by apply elem_of_singleton.
  - intros w depth.
    destruct (get_random_proxy_step w depth pm)
      as [(out & Hout & _)|(proxy & pm1 & Hrec & _ & _ & _ & Hf)].
    + left. eauto.
    + right. exists proxy, pm1. split; [done|]. rewrite Hf.
      apply elem_of_union_r. by apply elem_of_singleton.
  - intros key later w limit p pm' Hkey Hget Heq.
    destruct (get_random_proxy_inv w limit 0 (run_calls later pm)) as (_ & Hmono & Hret).
    rewrite Hget in Hmono, Hret. simpl in *.
    destruct (Hret p eq_refl) as [_ Hnot]. apply Hnot.
    apply Hmono. apply run_calls_failed_mono. by rewrite Heq.
Qed.

Lemma failed_proxy_never_returned_witness :
  _proxy_key sample_proxy_b ≠ "10.0.0.7:3128".
Proof.
  apply (proj2 (proj2 (proj2 (failed_proxy_never_returned
                                (run_call (CallMark sample_proxy_a) sample_manager))))
           "10.0.0.7:3128" [CallGet sample_probes 5]
           sample_probes 5%nat sample_proxy_b
           (snd (get_random_proxy sample_probes 5 0
                   (run_calls [CallGet sample_probes 5]
                      (run_call (CallMark sample_proxy_a) sample_manager))))).
  - vm_compute. reflexivity.
  - vm_compute. reflexivity.
Defined.

(** The keys still open to a draw shrink with every nested call, so an
    allowance above their number is never used up, and a larger one changes
    nothing. *)
Lemma get_random_proxy_bound (w : Probes) (limit depth : nat) (pm : t) :
  (size (keys pm ∖ failed_proxies pm) < limit)%nat →
  fst (get_random_proxy w limit depth pm) ≠ Raise RecursionError ∧
  (∀ limit', (limit ≤ limit')%nat →
     get_random_proxy w limit' depth pm = get_random_proxy w limit depth pm).
Proof.
  revert depth pm. induction limit as [|limit IH]; intros depth pm Hsize; [lia|].
  destruct (get_random_proxy_step w depth pm)
    as [(out & Hout & Hne & _)|(proxy & pm1 & Hrec & Hin & Hkey & Hp & Hf)].
  - rewrite Hout. split; [done|]. intros [|limit'] Hle; [lia|]. by rewrite Hout.
  - assert (size (keys pm1 ∖ failed_proxies pm1) < limit)%nat as Hsize1.
    { assert (keys pm1 ∖ failed_proxies pm1 ⊂ keys pm ∖ failed_proxies pm) as Hsub.
      { unfold keys. rewrite Hp, Hf.
        assert (_proxy_key proxy ∈ (list_to_set (_proxy_key <$> proxies pm) : gset string))
          as Hk by (apply elem_of_list_to_set; by apply list_elem_of_fmap_2).
        split.
        - intros x. rewrite !elem_of_difference, elem_of_union. tauto.
        - intros Hsub. specialize (Hsub (_proxy_key proxy)).
          rewrite !elem_of_difference, elem_of_union, elem_of_singleton in Hsub.
          tauto. }
      apply subset_size in Hsub. lia. }
    destruct (IH (S depth) pm1 Hsize1) as [IH1 IH2].
    rewrite Hrec. split; [done|]. intros [|limit'] Hle; [lia|].
    rewrite Hrec. apply IH2. lia.
Qed.

(** C8.  [get_random_proxy] terminates in every state and for every outcome
    of the draws and of the liveness tests.  A call either returns without
    calling itself, or it calls itself after having added to the failed set
    the key of a listed proxy that was not in it.  Hence the nesting is
    bounded by the number of distinct [host:port] keys of the loaded list:
    with an allowance above that number the call never runs into the
    interpreter's limit, and its result does not depend on the allowance. *)
Theorem get_random_proxy_terminates (w : Probes) (depth : nat) (pm : t) :
  ((∃ out,
      (∀ limit, get_random_proxy w (S limit) depth pm = out) ∧
      fst out ≠ Raise RecursionError)
   ∨ (∃ proxy pm1,
        (∀ limit, get_random_proxy w (S limit) depth pm
                  = get_random_proxy w limit (S depth) pm1) ∧
        proxy ∈ proxies pm ∧
        (_proxy_key proxy ∉ failed_proxies pm) ∧
        proxies pm1 = proxies pm ∧
        failed_proxies pm1 = failed_proxies pm ∪ {[ _proxy_key proxy ]}))
  ∧ (∀ limit,
       (size (keys pm) < limit)%nat →
       fst (get_random_proxy w limit depth pm) ≠ Raise RecursionError ∧
       (∀ limit', (limit ≤ limit')%nat →
          get_random_proxy w limit' depth pm = get_random_proxy w limit depth pm)).
Proof.
  split.
  - destruct (get_random_proxy_step w depth pm)
      as [(out & Hout & Hne & _)|(proxy & pm1 & Hrec)].
    + left. eauto.
    + right. eauto.
  - intros limit Hsize. apply get_random_proxy_bound.
    eapply Nat.le_lt_trans; [|exact Hsize].
    apply subseteq_size, subseteq_difference_l. done.
Qed.

Lemma get_random_proxy_terminates_witness :
  fst (get_random_proxy failing_probes 3 0 sample_manager) ≠ Raise RecursionError ∧
  get_random_proxy failing_probes 1000 0 sample_manager
  = get_random_proxy failing_probes 3 0 sample_manager.
Proof.
  assert (size (keys sample_manager) < 3)%nat as Hsize by (vm_compute; lia).
  destruct (proj2 (get_random_proxy_terminates failing_probes 0%nat sample_manager)
              3%nat Hsize)
    as [Hne Heq].
  split; [exact Hne|]. apply Heq. lia.
Defined.

End Draws.

(** ** The configuration accessors *)

Section Accessors.
Import ConfigManager.

(** Interpolation fails with its own error only. *)
Lemma _interpolate_loop_raises (deeper : string → result string)
    (map : gmap string string) :
  (∀ v e, deeper v = Raise e → e = InterpolationError) →
  ∀ n s key e, (String.length s ≤ n)%nat →
    ConfigParser._interpolate_loop deeper map key s = Raise e →
    e = InterpolationError.
Proof.
  intros Hdeeper. induction n as [|n IH]; intros s key e Hlen.
  - destruct s; [|simpl in Hlen; lia]. destruct key; simpl; by intros [= <-].
  - destruct s as [|c s]; [destruct key; simpl; by intros [= <-]|].
    simpl in Hlen.
    assert (∀ key e, ConfigParser._interpolate_loop deeper map key s = Raise e
                     → e = InterpolationError) as IH1.
    { intros key' e'. apply IH. lia. }
    assert (∀ c' s', s = String c' s' →
              ∀ key e, ConfigParser._interpolate_loop deeper map key s' = Raise e
                       → e = InterpolationError) as IH2.
    { intros c' s' -> key' e'. apply IH. simpl in Hlen. lia. }
    destruct key as [k|]; simpl.
    + repeat goal_match; try (intros [= <-]; try done); eauto.
      destruct (contains "%" _); [eauto|discriminate].
    + repeat goal_match; try (intros [= <-]; try done); eauto.
Qed.

Lemma _interpolate_some_raises (levels : nat) (map : gmap string string)
    (rest : string) (e : exn) :
  ConfigParser._interpolate_some levels map rest = Raise e → e = InterpolationError.
Proof.
  revert rest e. induction levels as [|levels IH]; intros rest e; simpl.
  - by intros [= <-].
  - apply (_interpolate_loop_raises _ map IH (String.length rest)). lia.
Qed.

Lemma _unify_values_raises (cp : ConfigParser.t) (section : string) (e : exn) :
  ConfigParser._unify_values cp section = Raise e → e = NoSectionError.
Proof.
  unfold ConfigParser._unify_values.
  destruct (ConfigParser._sections cp !! section); [done|].
  destruct (String.eqb section ConfigParser.default_section); [done|].
  by intros [= <-].
Qed.

(** The parser's [get] raises subclasses of [Exception] only. *)
Lemma ConfigParser_get_ordinary (cp : ConfigParser.t) (section key : string) :
  ordinary (ConfigParser.get cp section key).
Proof.
  intros e. unfold ConfigParser.get, ConfigParser.before_get.
  destruct (ConfigParser._unify_values cp section) as [d|e0] eqn:Hu.
  - destruct (d !! ConfigParser.optionxform key); [|by intros [= <-]].
    intros Hi. by apply _interpolate_some_raises in Hi as ->.
  - apply _unify_values_raises in Hu as ->. by intros [= <-].
Qed.

Lemma ConfigParser_get_fallback_ordinary (cp : ConfigParser.t) (section key : string)
    (fallback : option string) :
  ordinary (ConfigParser.get_fallback cp section key fallback).
Proof.
  intros e. unfold ConfigParser.get_fallback, ConfigParser.before_get.
  destruct (ConfigParser._unify_values cp section) as [d|e0]; [|done].
  destruct (d !! ConfigParser.optionxform key); [|done].
  destruct (ConfigParser._interpolate_some _ _ _) as [v|e1] eqn:Hi; [done|].
  apply _interpolate_some_raises in Hi as ->. by intros [= <-].
Qed.

Lemma _convert_to_boolean_ordinary (v : string) :
  ordinary (ConfigParser._convert_to_boolean v).
Proof.
  unfold ConfigParser._convert_to_boolean.
  repeat goal_match; first [apply ordinary_Return | by apply ordinary_Raise].
Qed.

Lemma float_ordinary (v : string) : ordinary (ConfigParser.float_ v).
Proof.
  unfold ConfigParser.float_.
  destruct (py_float v); [apply ordinary_Return|by apply ordinary_Raise].
Qed.

(** A typed accessor: the converted value when the option is there and
    converts, the fallback in every other case; the manager is untouched. *)
Lemma typed_accessor_spec {A} (conv : string → result A) (fallback : A)
    (section key : string) (cm : t) :
  (∀ v, ordinary (conv v)) →
  try_except
    (bind (gets config)
       (λ cfg, lift (ConfigParser._get_conv cfg section key conv fallback)))
    (λ _, ret fallback) cm
  = (Return match ConfigParser.get (config cm) section key with
            | Return v => match conv v with Return x => x | Raise _ => fallback end
            | Raise _ => fallback
            end, cm).
Proof.
  intros Hconv. run. unfold ConfigParser._get_conv.
  pose proof (ConfigParser_get_ordinary (config cm) section key) as Hget.
  destruct (ConfigParser.get (config cm) section key) as [v|e].
  - specialize (Hconv v). destruct (conv v) as [x|e]; [done|].
    by rewrite (Hconv e eq_refl).
  - specialize (Hget e eq_refl). destruct e; try done.
Qed.

Lemma get_spec (section key : string) (fallback : option string) (cm : t) :
  ∃ v, get section key fallback cm = (Return v, cm).
Proof.
  unfold get. run.
  pose proof (ConfigParser_get_fallback_ordinary (config cm) section key fallback) as H.
  destruct (ConfigParser.get_fallback _ _ _ _) as [v|e]; [eauto|].
  rewrite (H e eq_refl). eauto.
Qed.

Lemma get_bool_spec (section key : string) (fallback : bool) (cm : t) :
  get_bool section key fallback cm
  = (Return match ConfigParser.get (config cm) section key with
            | Return v => match ConfigParser._convert_to_boolean v with
                          | Return x => x
                          | Raise _ => fallback
                          end
            | Raise _ => fallback
            end, cm).
Proof. apply typed_accessor_spec, _convert_to_boolean_ordinary. Qed.

Lemma get_int_spec (section key : string) (fallback : Z) (cm : t) :
  get_int section key fallback cm
  = (Return match ConfigParser.get (config cm) section key with
            | Return v => match int_ v with Return x => x | Raise _ => fallback end
            | Raise _ => fallback
            end, cm).
Proof. apply typed_accessor_spec, int_ordinary. Qed.

Lemma get_float_spec (section key : string) (fallback : pyfloat) (cm : t) :
  get_float section key fallback cm
  = (Return match ConfigParser.get (config cm) section key with
            | Return v => match ConfigParser.float_ v with
                          | Return x => x
                          | Raise _ => fallback
                          end
            | Raise _ => fallback
            end, cm).
Proof. apply typed_accessor_spec, float_ordinary. Qed.





(** Every accessor call returns and leaves the manager as it was. *)
Lemma call_spec (a : Accessor) (cm : t) : ∃ v, call a cm = (Return v, cm).
Proof.
  destruct a; unfold call, bind, ret,
    get_proxy_file, get_headless_mode, get_disable_images, get_min_delay,
    get_max_delay, get_min_watch_duration, get_max_watch_duration,
    get_page_load_timeout, get_scroll_probability, get_pause_probability,
    get_mouse_move_probability, is_random_behavior_enabled;
    rewrite ?get_bool_spec, ?get_int_spec, ?get_float_spec; eauto.
  all: match goal with
       | |- context [get ?s ?k ?f ?c] => destruct (get_spec s k f c) as [v ->]
       end; eauto.
Qed.

(** C7.  After [load_config] has completed (here: after the manager has
    been constructed, for any configuration file and any behaviour of the
    file system), every sequence of calls of [get], [get_bool], [get_int],
    [get_float] and of the convenience getters returns its values and leaves
    the manager, and so the stored configuration, exactly as it was after
    the load. *)
Theorem accessors_do_not_modify (config_file : string) (w : Files)
    (calls : list Accessor) :
  ∃ values,
    call_all calls (snd (__init__ config_file w))
    = (Return values, snd (__init__ config_file w)).
Proof.
  generalize (snd (__init__ config_file w)) as cm. intros cm.
  induction calls as [|a calls [values IH]]; simpl.
  - by exists [].
  - destruct (call_spec a cm) as [v Hv].
    exists (v :: values). unfold bind at 1. rewrite Hv.
    unfold bind at 1. rewrite IH. reflexivity.
Qed.

End Accessors.

(** ** Randomised delays *)

Section Delays.
Import YouTubeBot.



Lemma set_config_id (b : t) : set_config (config b) b = b.
Proof. by destruct b. Qed.

Lemma on_config_returns {A} (m : M ConfigManager.t A) (b : t) (x : A) :
  m (config b) = (Return x, config b) → on_config m b = (Return x, b).
Proof. intros Hm. unfold on_config, zoom. by rewrite Hm, set_config_id. Qed.

(** A float accessor returns, and leaves the bot as it is. *)
Lemma on_config_get_float (section key : string) (fallback : pyfloat) (b : t) :
  ∃ x, ConfigManager.get_float section key fallback (config b) = (Return x, config b) ∧
       on_config (ConfigManager.get_float section key fallback) b = (Return x, b).
Proof.
  eexists. split; [apply get_float_spec|].
  apply on_config_returns, get_float_spec.
Qed.




(** An infinite bound, even in the right order, gives no delay at all: with
    [min_delay_between_views = -inf] the draw is a NaN. *)
Lemma random_delay_nan_for_infinite_bound :
  fst (ConfigManager.get_min_delay (config unbounded_bot)) = Return NInf ∧
  fst (ConfigManager.get_max_delay (config unbounded_bot)) = Return (Fin 120) ∧
  fle NInf (Fin 120) = true ∧
  fst (_get_random_delay (2 ^ 52) unbounded_bot) = Return NaN.
Proof. split_and!; reflexivity. Qed.

End Delays.

(** ** The view loop *)

Section Views.
Import YouTubeBot.

Lemma keeps_zoom_read_only {S T A B} (f : S → B) (get : S → T) (set : T → S → S)
    (m : M T A) :
  (∀ s, set (get s) s = s) → keeps id m → keeps f (zoom get set m).
Proof.
  intros Hset Hm s. unfold zoom. specialize (Hm (get s)).
  destruct (m (get s)) as [r t]. simpl in *. unfold id in Hm. subst t.
  by rewrite Hset.
Qed.

(** The accessors always return and change nothing. *)
Lemma get_bool_total section key fallback : total (ConfigManager.get_bool section key fallback).
Proof. intros cm. rewrite get_bool_spec. eauto. Qed.
Lemma get_bool_keeps section key fallback : keeps id (ConfigManager.get_bool section key fallback).
Proof. intros cm. by rewrite get_bool_spec. Qed.
Lemma get_float_total section key fallback : total (ConfigManager.get_float section key fallback).
Proof. intros cm. rewrite get_float_spec. eauto. Qed.
Lemma get_float_keeps section key fallback : keeps id (ConfigManager.get_float section key fallback).
Proof. intros cm. by rewrite get_float_spec. Qed.

Lemma bm_set_config_id (bm : BrowserManager.t) :
  BrowserManager.set_config (BrowserManager.config bm) bm = bm.
Proof. by destruct bm. Qed.

(** *** The proxy manager *)

Lemma _test_proxy_total (response : string → result Z) (proxy : ProxyManager.Proxy) :
  (∀ url, ordinary (response url)) → total (ProxyManager._test_proxy response proxy).
Proof.
  intros Hr. unfold ProxyManager._test_proxy, ProxyManager.log.
  apply total_try_except.
  - apply safe_bind; [by apply safe_lift|intros ?]. repeat method_step.
  - intros e. repeat method_step.
Qed.

Lemma get_random_proxy_safe (w : ProxyManager.Probes) (limit depth : nat) :
  (∀ k, ordinary (ProxyManager.requests_get w k)) →
  safe (ProxyManager.get_random_proxy w limit depth).
Proof.
  intros Hw. revert depth. induction limit as [|limit IH]; intros depth; simpl.
  - by apply safe_raise.
  - unfold ProxyManager._is_proxy_tested, ProxyManager.log.
    repeat first [apply IH | apply total_safe, _test_proxy_total; intros _; apply Hw
                 | method_step].
Qed.

(** *** The browser manager *)

Lemma _get_random_user_agent_total (w : BrowserManager.Driver) :
  ordinary (BrowserManager.ua_chrome w) →
  total (BrowserManager._get_random_user_agent w).
Proof.
  intros Hw. unfold BrowserManager._get_random_user_agent, BrowserManager.log.
  apply total_try_except.
  - apply safe_bind; [by apply safe_lift|intros ?]. repeat method_step.
  - intros _ s. unfold lift. simpl.
    destruct (random_choice_nonempty (BrowserManager.fallback_draw w)
      [ "Mozilla/5.0 (Windows NT 10.0; Win64; x64) AppleWebKit/537.36 (KHTML, like Gecko) Chrome/91.0.4472.124 Safari/537.36";
        "Mozilla/5.0 (Macintosh; Intel Mac OS X 10_15_7) AppleWebKit/537.36 (KHTML, like Gecko) Chrome/91.0.4472.124 Safari/537.36";
        "Mozilla/5.0 (X11; Linux x86_64) AppleWebKit/537.36 (KHTML, like Gecko) Chrome/91.0.4472.124 Safari/537.36" ])
      as [x ->]; [done|eauto].
Qed.

Lemma _get_chrome_options_safe (w : BrowserManager.Driver)
    (proxy : option ProxyManager.Proxy) :
  ordinary (BrowserManager.ua_chrome w) →
  safe (BrowserManager._get_chrome_options w proxy).
Proof.
  intros Hw.
  unfold BrowserManager._get_chrome_options, BrowserManager.on_config,
    BrowserManager.log, ConfigManager.get_disable_images, ConfigManager.get_headless_mode.
  simpl.
  repeat first [ apply total_safe, _get_random_user_agent_total, Hw
               | apply total_safe, get_bool_total
               | apply safe_lift, ordinary_Return
               | apply safe_lift; by apply ordinary_Raise
               | (apply safe_lift; destruct (ProxyManager.protocol _);
                  [apply ordinary_Return | by apply ordinary_Raise])
               | method_step ].
Qed.

Lemma create_browser_total (w : BrowserManager.Driver)
    (proxy : option ProxyManager.Proxy) :
  BrowserManager.Driver_ordinary w →
  total (BrowserManager.create_browser w proxy).
Proof.
  intros (Hua & Hchrome & Hsize & Hquit).
  unfold BrowserManager.create_browser, BrowserManager._set_random_window_size,
    BrowserManager.log.
  apply total_try_except.
  - repeat first [ apply _get_chrome_options_safe, Hua
                 | (apply safe_lift; assumption)
                 | method_step ].
  - intros e. repeat method_step.
Qed.

Lemma close_browser_total (w : BrowserManager.Driver)
    (browser : option BrowserManager.Browser) :
  BrowserManager.Driver_ordinary w →
  total (BrowserManager.close_browser w browser).
Proof.
  intros (Hua & Hchrome & Hsize & Hquit).
  unfold BrowserManager.close_browser, BrowserManager.log.
  apply total_try_except.
  - repeat first [ (apply safe_lift; assumption) | method_step ].
  - intros e. repeat method_step.
Qed.

(** *** The bot *)

Lemma on_config_keeps {A B} (f : t → B) (m : M ConfigManager.t A) :
  keeps id m → keeps f (on_config m).
Proof. intros Hm. apply keeps_zoom_read_only; [apply set_config_id|done]. Qed.

Lemma _get_random_delay_total (bits : N) : total (_get_random_delay bits).
Proof.
  unfold _get_random_delay, on_config, ConfigManager.get_min_delay,
    ConfigManager.get_max_delay.
  repeat first [apply get_float_total | method_step].
Qed.

Lemma _get_random_delay_keeps {B} (f : t → B) (bits : N) : keeps f (_get_random_delay bits).
Proof.
  unfold _get_random_delay, ConfigManager.get_min_delay, ConfigManager.get_max_delay.
  repeat first [apply on_config_keeps, get_float_keeps | method_step].
Qed.

Lemma _get_random_watch_duration_total (bits : N) : total (_get_random_watch_duration bits).
Proof.
  unfold _get_random_watch_duration, on_config, ConfigManager.get_min_watch_duration,
    ConfigManager.get_max_watch_duration.
  repeat first [apply get_float_total | method_step].
Qed.

Lemma _get_random_watch_duration_keeps {B} (f : t → B) (bits : N) :
  keeps f (_get_random_watch_duration bits).
Proof.
  unfold _get_random_watch_duration, ConfigManager.get_min_watch_duration,
    ConfigManager.get_max_watch_duration.
  repeat first [apply on_config_keeps, get_float_keeps | method_step].
Qed.

Lemma _simulate_human_behavior_total (w : View) :
  View_ordinary w → total (_simulate_human_behavior w).
Proof.
  intros (Hprobe & Hdriver & Hpage & Hvideo & Hscroll & Hbody & Hcursor).
  unfold _simulate_human_behavior, log.
  apply total_try_except.
  - repeat first [ (apply safe_lift; assumption) | method_step ].
  - intros e. repeat method_step.
Qed.

Lemma _simulate_human_behavior_keeps (w : View) :
  keeps view_state (_simulate_human_behavior w).
Proof. unfold _simulate_human_behavior, log. repeat method_step. Qed.

Lemma _simulate_view_total (w : View) (video_url : string) :
  View_ordinary w → total (_simulate_view w video_url).
Proof.
  intros Hw. pose proof Hw as (Hprobe & Hdriver & Hpage & Hvideo & Hscroll & Hbody & Hcursor).
  unfold _simulate_view, log.
  apply total_try_except.
  - repeat first [ (apply safe_lift; assumption)
                 | apply total_safe, _simulate_human_behavior_total, Hw
                 | apply total_safe, _get_random_watch_duration_total
                 | method_step ].
  - intros e. repeat method_step.
Qed.

Lemma _simulate_view_keeps (w : View) (video_url : string) :
  keeps view_state (_simulate_view w video_url).
Proof.
  unfold _simulate_view, log.
  repeat first [ apply _simulate_human_behavior_keeps
               | apply _get_random_watch_duration_keeps
               | method_step ].
Qed.

(** The delay depends on the configuration only. *)
Lemma _get_random_delay_config (bits : N) (b b' : t) :
  config b = config b' →
  ∃ delay, _get_random_delay bits b = (Return delay, b) ∧
           _get_random_delay bits b' = (Return delay, b').
Proof.
  intros Hcfg. unfold _get_random_delay, ConfigManager.get_min_delay,
    ConfigManager.get_max_delay, bind.
  destruct (on_config_get_float "TIMING" "min_delay_between_views" (Fin 30) b)
    as (x & Hx & ->).
  destruct (on_config_get_float "TIMING" "max_delay_between_views" (Fin 120) b)
    as (y & Hy & ->).
  destruct (on_config_get_float "TIMING" "min_delay_between_views" (Fin 30) b')
    as (x' & Hx' & ->).
  destruct (on_config_get_float "TIMING" "max_delay_between_views" (Fin 120) b')
    as (y' & Hy' & ->).
  rewrite Hcfg in Hx, Hy. rewrite Hx in Hx'. rewrite Hy in Hy'.
  injection Hx' as <-. injection Hy' as <-. eauto.
Qed.

Lemma wait_of_config (w : View) (b b' : t) :
  config b = config b' → wait_of w b = wait_of w b'.
Proof.
  intros Hcfg. unfold wait_of.
  by destruct (_get_random_delay_config (delay_bits w) b b' Hcfg) as (d & -> & ->).
Qed.

Section OneView.
Variables (w : View) (video_url : string) (target_views : Z) (i : nat) (b0 : t).
Hypothesis Hw : View_ordinary w.

(** A step made before the view is counted may raise an [Exception]. *)
Lemma before_count {A} (m : M t A) (k : A → M t unit) :
  safe m → keeps view_state m →
  (∀ a, hoare (λ s, view_state s = view_state b0) (k a)
          (view_post (config b0) (counted b0) (wait_ok w b0 target_views i))) →
  hoare (λ s, view_state s = view_state b0) (bind m k)
    (view_post (config b0) (counted b0) (wait_ok w b0 target_views i)).
Proof.
  intros Hs Hk Hrest. eapply hoare_bind; [|exact Hrest].
  eapply hoare_conseq; [| |apply (hoare_safe_keeps view_state (view_state b0) m Hs Hk)].
  - done.
  - intros [a|e] s [Hord Hvs]; simpl; [done|].
    injection Hvs as Hc Hn. split; [done|]. split; [by apply Hord|by left].
Qed.

(** A step made after the view is counted must return. *)
Lemma after_count {A} (m : M t A) (k : A → M t unit) :
  total m → keeps view_state m →
  (∀ a, hoare (λ s, view_state s = (config b0, counted b0 + 1)) (k a)
          (view_post (config b0) (counted b0) (wait_ok w b0 target_views i))) →
  hoare (λ s, view_state s = (config b0, counted b0 + 1)) (bind m k)
    (view_post (config b0) (counted b0) (wait_ok w b0 target_views i)).
Proof.
  intros Ht Hk Hrest. eapply hoare_bind; [|exact Hrest].
  eapply hoare_conseq;
    [| |apply (hoare_total_keeps view_state (config b0, counted b0 + 1) m Ht Hk)].
  - done.
  - intros r s [[a ->] Hvs]. done.
Qed.

(** The wait that ends the [try] block. *)
Lemma wait_step :
  hoare (λ s, view_state s = (config b0, counted b0 + 1))
    (if (Z.of_nat i <? target_views - 1)%Z then
       bind (_get_random_delay (delay_bits w)) (λ delay,
         bind (log DEBUG "Waiting {delay} seconds before next view...") (λ _,
           lift (time_sleep delay)))
     else ret tt)
    (view_post (config b0) (counted b0) (wait_ok w b0 target_views i)).
Proof.
  intros s Hs. injection Hs as Hcfg Hcount. unfold wait_ok.
  destruct (Z.of_nat i <? target_views - 1)%Z eqn:Hlast.
  - destruct (_get_random_delay_config (delay_bits w) b0 s (eq_sym Hcfg))
      as (delay & Hb0 & Hdelay).
    unfold wait_of. rewrite Hb0. unfold bind. rewrite Hdelay. simpl.
    pose proof (time_sleep_ordinary delay) as Hord.
    destruct (time_sleep delay) as [[]|e]; simpl.
    + split; [done|]. split; [done|by right].
    + split; [done|]. split; [by apply Hord|]. right. split; [done|].
      intros [?|?]; done.
  - simpl. split; [done|]. split; [done|by left].
Qed.

(** The block that counts the view: afterwards exactly one more view is
    counted, as a success or as a failure. *)
Lemma count_step (browser : option BrowserManager.Browser) (k : unit → M t unit) :
  (∀ a, hoare (λ s, view_state s = (config b0, counted b0 + 1)) (k a)
          (view_post (config b0) (counted b0) (wait_ok w b0 target_views i))) →
  hoare (λ s, view_state s = view_state b0)
    (bind
       match browser with
       | Some _ =>
           bind (_simulate_view w video_url) (λ success,
             bind (if success : bool then
                     bind (modify (set_success_count (λ n, n + 1))) (λ _,
                       log INFO "View {i + 1} completed successfully")
                   else
                     bind (modify (set_failed_count (λ n, n + 1))) (λ _,
                       log WARNING "View {i + 1} failed")) (λ _,
               on_browser_manager (BrowserManager.close_browser (driver w) browser)))
       | None =>
           bind (modify (set_failed_count (λ n, n + 1))) (λ _,
             log ERROR "Failed to create browser for view {i + 1}")
       end k)
    (view_post (config b0) (counted b0) (wait_ok w b0 target_views i)).
Proof.
  intros Hrest. eapply hoare_bind; [|exact Hrest].
  intros s Hs. injection Hs as Hcfg Hcount.
  match goal with
  | |- context [fst (?block s)] =>
      assert (∃ s', block s = (Return tt, s') ∧
                    view_state s' = (config b0, counted b0 + 1))
        as (s' & -> & Hs'); [|exact Hs']
  end.
  destruct browser as [br|].
  - unfold bind.
    destruct (_simulate_view_total w video_url Hw s) as [success Hsim].
    pose proof (_simulate_view_keeps w video_url s) as Hkeep.
    destruct (_simulate_view w video_url s) as [r s1]. simpl in Hsim, Hkeep. subst r.
    injection Hkeep as Hcfg1 Hcount1.
    destruct Hw as (_ & Hdriver & _).
    unfold on_browser_manager, zoom.
    destruct success; simpl.
    + match goal with
      | |- context [BrowserManager.close_browser ?d ?br ?bm] =>
          destruct (close_browser_total d br Hdriver bm) as [[] Hclose];
          destruct (BrowserManager.close_browser d br bm) as [r bm'];
          simpl in Hclose; subst r
      end.
      eexists. split; [reflexivity|].
      unfold view_state, counted in *. simpl. f_equal; [congruence|lia].
    + match goal with
      | |- context [BrowserManager.close_browser ?d ?br ?bm] =>
          destruct (close_browser_total d br Hdriver bm) as [[] Hclose];
          destruct (BrowserManager.close_browser d br bm) as [r bm'];
          simpl in Hclose; subst r
      end.
      eexists. split; [reflexivity|].
      unfold view_state, counted in *. simpl. f_equal; [congruence|lia].
  - eexists. split; [reflexivity|].
    unfold view_state, counted in *. simpl. f_equal; [congruence|lia].
Qed.

(** One view: it always ends normally under an ordinary world, leaves the
    configuration alone, counts the view once, and counts one failure more
    exactly when an exception reaches the handler after the view was
    counted, which only the wait can cause. *)
Lemma generate_view_spec :
  ∃ b', generate_view w video_url target_views i b0 = (Return tt, b') ∧
        config b' = config b0 ∧
        (counted b0 + 1 ≤ counted b' ≤ counted b0 + 2)%Z ∧
        (wait_ok w b0 target_views i → counted b' = counted b0 + 1).
Proof.
  assert (hoare (λ s, view_state s = view_state b0)
            (generate_view w video_url target_views i)
            (λ r s, r = Return tt ∧ config s = config b0 ∧
                    (counted b0 + 1 ≤ counted s ≤ counted b0 + 2)%Z ∧
                    (wait_ok w b0 target_views i → counted s = counted b0 + 1)))
    as Hview.
  { unfold generate_view.
    apply hoare_try_except
      with (R := λ e s, config s = config b0 ∧
                        (counted s = counted b0 ∨
                         (counted s = counted b0 + 1 ∧ ¬ wait_ok w b0 target_views i))).
    - eapply hoare_conseq
        with (P' := λ s, view_state s = view_state b0)
             (Q' := view_post (config b0) (counted b0) (wait_ok w b0 target_views i)).
      + intros s Hs. exact Hs.
      + intros [[]|e] s (Hcfg & Hpost); simpl.
        * destruct Hpost as [Hc Hok]. split_and!; try done; lia.
        * destruct Hpost as [-> Hc]. done.
      + destruct Hw as (Hprobe & Hdriver & _).
        apply before_count; [unfold log; repeat method_step..|intros _].
        apply before_count; [unfold on_proxy_manager..|intros proxy].
        { by apply safe_zoom, get_random_proxy_safe. }
        { by apply keeps_zoom. }
        apply before_count; [unfold log; repeat method_step..|intros _].
        apply before_count; [unfold on_browser_manager..|intros browser].
        { by apply safe_zoom, total_safe, create_browser_total. }
        { by apply keeps_zoom. }
        apply count_step. intros _. apply wait_step.
    - intros e s (Hcfg & Hc). unfold log. simpl.
      unfold counted in *. simpl. split_and!; try done; try lia.
      intros Hok. destruct Hc as [?|[? ?]]; [lia|done]. }
  specialize (Hview b0 eq_refl).
  destruct (generate_view w video_url target_views i b0) as [r b'].
  simpl in Hview. destruct Hview as (-> & ? & ? & ?). eauto.
Qed.

End OneView.

Lemma generate_views_loop (w : nat → View) (video_url : string) (target_views : Z)
    (l : list nat) (b : t) :
  (∀ i, View_ordinary (w i)) →
  ∃ b', for_each l (λ i, generate_view (w i) video_url target_views i) b
        = (Return tt, b') ∧
        config b' = config b ∧
        (counted b + Z.of_nat (length l) ≤ counted b'
         ≤ counted b + 2 * Z.of_nat (length l))%Z ∧
        ((∀ i, i ∈ l → wait_ok (w i) b target_views i) →
         counted b' = counted b + Z.of_nat (length l)).
Proof.
  intros Hw. revert b. induction l as [|i l IH]; intros b.
  - exists b. simpl. split_and!; try done; lia.
  - simpl. unfold bind.
    destruct (generate_view_spec (w i) video_url target_views i b (Hw i))
      as (b1 & -> & Hcfg1 & Hr1 & Hok1).
    destruct (IH b1) as (b' & -> & Hcfg & Hr & Hok).
    exists b'. split_and!; [done|congruence|lia|lia|].
    intros Hall. rewrite Hok, Hok1; [lia| |].
    + apply Hall. apply list_elem_of_here.
    + intros j Hj. unfold wait_ok. rewrite (wait_of_config (w j) b1 b Hcfg1).
      apply Hall. by apply list_elem_of_further.
Qed.

(** Under a world that raises [Exception]s only, [generate_views] returns
    the success counter; every view is counted, at most twice; and when each
    wait between two views goes well, the two counters grow by the requested
    number of views together. *)
Lemma generate_views_spec (w : nat → View) (video_url : string) (target_views : Z)
    (b : t) :
  (∀ i, View_ordinary (w i)) →
  ∃ b', generate_views w video_url target_views b = (Return (success_count b'), b') ∧
        config b' = config b ∧
        (counted b + Z.max 0 target_views ≤ counted b'
         ≤ counted b + 2 * Z.max 0 target_views)%Z ∧
        ((∀ i, wait_ok (w i) b target_views i) →
         counted b' = counted b + Z.max 0 target_views).
Proof.
  intros Hw. unfold generate_views. unfold bind at 1. unfold log at 1. simpl.
  unfold bind at 1.
  destruct (generate_views_loop w video_url target_views
              (seq 0 (Z.to_nat target_views))
              (set_logger (λ l, l ++ [(INFO, "Starting view generation for {target_views} views")]) b)
              Hw)
    as (b' & -> & Hcfg & Hr & Hok).
  rewrite length_seq in Hr, Hok. simpl in Hcfg, Hr, Hok.
  unfold counted in *. simpl in *.
  eexists. split; [reflexivity|]. simpl. split_and!; [done|lia|lia|].
  intros Hall. rewrite Hok; [lia|]. intros i _.
  unfold wait_ok.
  rewrite (wait_of_config (w i) _ b); [apply Hall|done].
Qed.

(** The sample bots are bots as the constructor builds them. *)
Lemma negative_bot_fresh :
  __init__ (snd (ConfigManager.__init__ "config.ini"
                   (ConfigManager.files_with ConfigManager.negative_store)))
    (Raise FileNotFoundError) (Return tt)
  = Return negative_bot.
Proof. reflexivity. Qed.



(** C3, at the failing input.  The configuration file sets
    [min_delay_between_views = -2] and [max_delay_between_views = -1]; the
    bot is fresh, two views are requested and both succeed.  After the first
    view has been counted as a success, [time.sleep] rejects the negative
    delay, the handler of the loop counts a failure for the same view, and
    the call returns 2 with [success_count = 2] and [failed_count = 1]: the
    counters add up to 3, not to the 2 views requested.  (The value returned
    is the success counter, as claimed.) *)
Theorem generate_views_counts_failed_wait_twice :
  fst (generate_views (λ _, calm_view 0) "https://youtu.be/x" 2 negative_bot)
  = Return 2 ∧
  success_count (snd (generate_views (λ _, calm_view 0) "https://youtu.be/x" 2
                        negative_bot)) = 2 ∧
  failed_count (snd (generate_views (λ _, calm_view 0) "https://youtu.be/x" 2
                       negative_bot)) = 1 ∧
  success_count negative_bot = 0 ∧ failed_count negative_bot = 0.
Proof. vm_compute. done. Qed.

End Views.

(** ** Degrading on errors *)

Section Degrade.

(** *** Configuration loading *)

Lemma _save_config_total (w : ConfigManager.Files) :
  ordinary (ConfigManager.write w) → total (ConfigManager._save_config w).
Proof.
  intros Hw. unfold ConfigManager._save_config, ConfigManager.log.
  apply total_try_except; [by apply safe_lift|intros e; repeat method_step].
Qed.

Lemma _create_default_config_total (w : ConfigManager.Files) :
  ordinary (ConfigManager.write w) → total (ConfigManager._create_default_config w).
Proof.
  intros Hw. unfold ConfigManager._create_default_config.
  repeat first [by apply _save_config_total | method_step].
Qed.

Lemma load_config_total (w : ConfigManager.Files) :
  ordinary (ConfigManager.read w) → ordinary (ConfigManager.write w) →
  total (ConfigManager.load_config w).
Proof.
  intros Hr Hw. unfold ConfigManager.load_config, ConfigManager.log.
  apply total_try_except.
  - repeat first [ (apply safe_lift; assumption)
                 | apply total_safe, _create_default_config_total, Hw
                 | method_step ].
  - intros e. apply total_bind; [apply total_modify|intros _].
    by apply _create_default_config_total.
Qed.

(** A value without a percent sign is not touched by interpolation. *)
Lemma _interpolate_loop_plain (deeper : string → result string)
    (map : gmap string string) (value : string) :
  contains "%" value = false →
  ConfigParser._interpolate_loop deeper map None value = Return value.
Proof.
  induction value as [|c value IH]; intros Hc; [reflexivity|].
  simpl in Hc |- *. rewrite Ascii.eqb_sym.
  destruct (Ascii.eqb "%" c); simpl in Hc; [discriminate|].
  by rewrite (IH Hc).
Qed.

Lemma before_get_plain (map : gmap string string) (value : string) :
  contains "%" value = false → ConfigParser.before_get map value = Return value.
Proof. apply _interpolate_loop_plain. Qed.

(** Reading an option of a section that has just been set. *)
Lemma get_setitem (cp : ConfigParser.t) (section : string)
    (options : list (string * string)) (key value : string) :
  String.eqb section ConfigParser.default_section = false →
  (list_to_map (prod_map ConfigParser.optionxform id <$> options) : gmap string string)
    !! ConfigParser.optionxform key = Some value →
  contains "%" value = false →
  ConfigParser.get (ConfigParser.setitem section options cp) section key = Return value.
Proof.
  intros Hd Hk Hv. unfold ConfigParser.get, ConfigParser._unify_values,
    ConfigParser.setitem.
  rewrite Hd. simpl. rewrite lookup_insert_eq.
  erewrite lookup_union_Some_l by exact Hk. by apply before_get_plain.
Qed.

(** Setting another section does not change what is read. *)
Lemma get_setitem_ne (cp : ConfigParser.t) (section section' : string)
    (options : list (string * string)) (key : string) :
  String.eqb section ConfigParser.default_section = false →
  section ≠ section' →
  ConfigParser.get (ConfigParser.setitem section options cp) section' key
  = ConfigParser.get cp section' key.
Proof.
  intros Hd Hne. unfold ConfigParser.get, ConfigParser._unify_values,
    ConfigParser.setitem.
  rewrite Hd. simpl. by rewrite lookup_insert_ne.
Qed.

Lemma _create_default_config_store (w : ConfigManager.Files) (cm : ConfigManager.t) :
  ConfigManager.config (snd (ConfigManager._create_default_config w cm))
  = ConfigParser.setitem "BROWSER"
      [("user_agent_rotation", "True"); ("window_size_randomization", "True");
       ("disable_webrtc", "True"); ("disable_plugins", "True")]
      (ConfigParser.setitem "BEHAVIOR"
         [("scroll_probability", "0.3"); ("pause_probability", "0.4");
          ("mouse_move_probability", "0.2"); ("random_behavior_enabled", "True")]
         (ConfigParser.setitem "TIMING"
            [("min_delay_between_views", "30"); ("max_delay_between_views", "120");
             ("min_watch_duration", "30"); ("max_watch_duration", "180");
             ("page_load_timeout", "30")]
            (ConfigParser.setitem "GENERAL"
               [("proxy_file", "proxies.txt"); ("headless_mode", "False");
                ("disable_images", "True"); ("log_level", "INFO")]
               (ConfigManager.config cm)))).
Proof.
  unfold ConfigManager._create_default_config, ConfigManager._save_config,
    ConfigManager.log.
  run. destruct (ConfigManager.write w) as [[]|e]; [reflexivity|].
  by destruct (is_Exception e).
Qed.

(** After the defaults have been written into the store, the settings read
    back as the defaults, whatever else the store holds. *)
Lemma defaults_read_back (w : ConfigManager.Files) (cm : ConfigManager.t) :
  fst (ConfigManager.get_min_delay (snd (ConfigManager._create_default_config w cm)))
  = Return (Fin 30) ∧
  fst (ConfigManager.get_max_delay (snd (ConfigManager._create_default_config w cm)))
  = Return (Fin 120) ∧
  fst (ConfigManager.get_page_load_timeout
         (snd (ConfigManager._create_default_config w cm)))
  = Return 30 ∧
  fst (ConfigManager.get_headless_mode (snd (ConfigManager._create_default_config w cm)))
  = Return false.
Proof.
  unfold ConfigManager.get_min_delay, ConfigManager.get_max_delay,
    ConfigManager.get_page_load_timeout, ConfigManager.get_headless_mode.
  rewrite !get_float_spec, get_int_spec, get_bool_spec, _create_default_config_store.
  simpl.
  rewrite !(get_setitem_ne _ "BROWSER") by done.
  rewrite !(get_setitem_ne _ "BEHAVIOR") by done.
  rewrite (get_setitem_ne _ "TIMING" "GENERAL") by done.
  rewrite (get_setitem _ "TIMING" _ "min_delay_between_views" "30") by done.
  rewrite (get_setitem _ "TIMING" _ "max_delay_between_views" "120") by done.
  rewrite (get_setitem _ "TIMING" _ "page_load_timeout" "30") by done.
  rewrite (get_setitem _ "GENERAL" _ "headless_mode" "False") by done.
  split_and!; reflexivity.
Qed.

(** A configuration file that cannot be parsed: an error is logged and the
    defaults take over. *)
Lemma load_config_falls_back (w : ConfigManager.Files) (cm : ConfigManager.t) (e : exn) :
  ConfigManager.path_exists w = true →
  ConfigManager.read w = Raise e → is_Exception e = true →
  ordinary (ConfigManager.write w) →
  ∃ cm',
    ConfigManager.load_config w cm = (Return tt, cm') ∧
    (ERROR, "Error loading configuration: {str(e)}") ∈ ConfigManager.logger cm' ∧
    fst (ConfigManager.get_min_delay cm') = Return (Fin 30) ∧
    fst (ConfigManager.get_max_delay cm') = Return (Fin 120) ∧
    fst (ConfigManager.get_page_load_timeout cm') = Return 30 ∧
    fst (ConfigManager.get_headless_mode cm') = Return false.
Proof.
  intros Hexists Hread He Hwrite.
  unfold ConfigManager.load_config.
  unfold try_except, bind at 1. rewrite Hexists. unfold modify at 1.
  unfold bind at 1, lift at 1. rewrite Hread, He.
  unfold bind at 1, ConfigManager.log at 1, modify at 1.
  set (cm1 := ConfigManager.set_logger _ _).
  destruct (_create_default_config_total w Hwrite cm1) as [[] Hdef].
  pose proof (defaults_read_back w cm1) as Hback.
  assert ((ERROR, "Error loading configuration: {str(e)}")
          ∈ ConfigManager.logger (snd (ConfigManager._create_default_config w cm1)))
    as Hlog.
  { unfold ConfigManager._create_default_config, ConfigManager._save_config,
      ConfigManager.log. run.
    destruct (ConfigManager.write w) as [[]|e']; simpl.
    - apply elem_of_app. right. apply list_elem_of_here.
    - destruct (is_Exception e'); simpl.
      + apply elem_of_app. left. apply elem_of_app. right.
        apply list_elem_of_here.
      + apply elem_of_app. right. apply list_elem_of_here. }
  destruct (ConfigManager._create_default_config w cm1) as [r cm'].
  simpl in Hdef, Hback, Hlog. subst r. exists cm'. done.
Qed.

(** *** Proxy loading *)

Lemma load_line_total (line : string) : total (ProxyManager.load_line line).
Proof. intros pm. destruct (load_line_spec line pm) as (pm' & -> & _). eauto. Qed.

Lemma load_proxies_total (readlines : result (list string)) :
  ordinary readlines → total (ProxyManager.load_proxies readlines).
Proof.
  intros Hr. unfold ProxyManager.load_proxies, ProxyManager.log.
  apply total_try_except.
  - repeat first [ (apply safe_lift; assumption)
                 | apply total_safe, load_line_total
                 | method_step ].
  - intros e. destruct e; repeat method_step.
Qed.

(** A proxy file that cannot be read: a record is logged and the manager is
    otherwise as before. *)
Lemma load_proxies_degrades (e : exn) (pm : ProxyManager.t) :
  is_Exception e = true →
  ∃ record,
    ProxyManager.load_proxies (Raise e) pm
    = (Return tt, ProxyManager.set_logger (λ l, l ++ [record]) pm) ∧
    (fst record = WARNING ∨ fst record = ERROR).
Proof.
  intros He. unfold ProxyManager.load_proxies, ProxyManager.log. run. rewrite He.
  destruct e; simpl; eexists; (split; [reflexivity|]); simpl; auto.
Qed.

(** *** Browser creation, view simulation, teardown *)

Lemma create_browser_degrades (w : BrowserManager.Driver)
    (proxy : option ProxyManager.Proxy) (bm : BrowserManager.t) (e : exn) :
  BrowserManager.Driver_ordinary w →
  BrowserManager.chrome w = Raise e →
  ∃ bm' records,
    BrowserManager.create_browser w proxy bm = (Return None, bm') ∧
    BrowserManager.logger bm'
    = records ++ [(ERROR, "Failed to create browser: {str(e)}")].
Proof.
  intros (Hua & Hchrome & Hsize & Hquit) He.
  unfold BrowserManager.create_browser, try_except. unfold bind at 1.
  pose proof (_get_chrome_options_safe w proxy Hua bm) as Hopts.
  destruct (BrowserManager._get_chrome_options w proxy bm) as [[opts|e'] bm1];
    simpl in Hopts.
  - unfold bind at 1, lift at 1. rewrite He.
    rewrite He in Hchrome. rewrite (Hchrome e eq_refl).
    unfold BrowserManager.log. run. eauto.
  - rewrite (Hopts e' eq_refl). unfold BrowserManager.log. run. eauto.
Qed.

Lemma _simulate_view_degrades (w : YouTubeBot.View) (video_url : string)
    (b : YouTubeBot.t) (e : exn) :
  YouTubeBot.page_get w = Raise e → is_Exception e = true →
  YouTubeBot._simulate_view w video_url b
  = (Return false,
     YouTubeBot.set_logger
       (λ l, (l ++ [(DEBUG, "Navigating to video URL")])
             ++ [(ERROR, "Error during view simulation: {str(e)}")]) b).
Proof.
  intros Hpage He. unfold YouTubeBot._simulate_view, YouTubeBot.log.
  unfold try_except, bind at 1. unfold modify at 1. unfold bind at 1, lift at 1.
  rewrite Hpage, He. run. reflexivity.
Qed.

Lemma close_browser_degrades (w : BrowserManager.Driver)
    (browser : BrowserManager.Browser) (bm : BrowserManager.t) (e : exn) :
  BrowserManager.quit w = Raise e → is_Exception e = true →
  BrowserManager.close_browser w (Some browser) bm
  = (Return tt,
     BrowserManager.set_logger (λ l, l ++ [(WARNING, "Error closing browser: {str(e)}")]) bm).
Proof.
  intros Hquit He. unfold BrowserManager.close_browser, BrowserManager.log.
  run. rewrite Hquit, He. reflexivity.
Qed.

(** *** The process *)

(** With well-formed arguments and a working logging setup, and whatever
    [Exception]s the five guarded operations raise, the outcome of [main]
    depends on the construction of the browser manager alone. *)
Lemma main_outcome (w : Main.World) (args : Main.Args) :
  Main.command_line w = Main.Parsed args →
  Main.logging_setup w = Return tt →
  Main.World_ordinary w →
  fst (Main.main w Main.initial)
  = match Main.ua_init w with
    | Return _ => Return tt
    | Raise KeyboardInterrupt => Return tt
    | Raise e => if is_Exception e then Raise (SystemExit 1) else Raise e
    end.
Proof.
  intros Hcli Hlog (Hread & Hwrite & Hlines & Hviews).
  unfold Main.main, Main.parse_args. rewrite Hcli. unfold bind at 1, ret at 1.
  unfold bind at 1, lift at 1. rewrite Hlog.
  unfold try_catch.
  unfold ConfigManager.__init__.
  destruct (load_config_total (Main.files w) Hread Hwrite
              {| ConfigManager.config_file := Main.config args;
                 ConfigManager.logger := [];
                 ConfigManager.config := ConfigParser.empty |}) as [[] Hcfg].
  destruct (ConfigManager.load_config _ _) as [r cm]. simpl in Hcfg. subst r.
  unfold bind at 1, lift at 1. unfold bind at 1, lift at 1.
  unfold YouTubeBot.__init__, ConfigManager.get_proxy_file.
  destruct (get_spec "GENERAL" "proxy_file" (Some "proxies.txt") cm) as [file ->].
  unfold ProxyManager.__init__.
  destruct (load_proxies_total (Main.proxy_lines w) Hlines
              {| ProxyManager.proxy_file := file; ProxyManager.logger := [];
                 ProxyManager.proxies := []; ProxyManager.working_proxies := [];
                 ProxyManager.failed_proxies := ∅ |}) as [[] Hpm].
  destruct (ProxyManager.load_proxies _ _) as [r pm]. simpl in Hpm. subst r.
  unfold BrowserManager.__init__.
  destruct (Main.ua_init w) as [[]|e].
  - unfold Main.log. run.
    destruct (Main.dry_run args); [reflexivity|].
    unfold Main.on_bot.
    match goal with
    | |- context [YouTubeBot.generate_views ?v ?u ?n ?b] =>
        destruct (generate_views_spec v u n b Hviews) as (b' & -> & _)
    end.
    reflexivity.
  - unfold Main.log. run. destruct e; reflexivity.
Qed.

(** C6, as amended.  Whatever subclass of [Exception] is raised by
    configuration loading, proxy loading, browser creation, view simulation
    or browser teardown, the operation logs and returns normally: the
    configuration falls back to its defaults, the proxy manager stays as it
    was, [create_browser] returns [None], [_simulate_view] returns [False],
    [close_browser] returns; [generate_views] returns and counts every
    requested view as a success or a failure.  A run with malformed
    arguments exits with status 2.  A run with well-formed arguments and a
    working logging setup exits with status 0 when the browser manager can
    be constructed, and with status 1, through the handler of [main], when
    [UserAgent()] raises an [Exception] during that construction; it also
    ends with status 1 when the logging setup, which runs before the [try]
    block, raises. *)
Theorem operations_degrade_and_main_exits :
  (∀ files cm e,
     ConfigManager.path_exists files = true →
     ConfigManager.read files = Raise e → is_Exception e = true →
     ordinary (ConfigManager.write files) →
     ∃ cm',
       ConfigManager.load_config files cm = (Return tt, cm') ∧
       (ERROR, "Error loading configuration: {str(e)}") ∈ ConfigManager.logger cm' ∧
       fst (ConfigManager.get_min_delay cm') = Return (Fin 30) ∧
       fst (ConfigManager.get_max_delay cm') = Return (Fin 120) ∧
       fst (ConfigManager.get_page_load_timeout cm') = Return 30 ∧
       fst (ConfigManager.get_headless_mode cm') = Return false) ∧
  (∀ e pm,
     is_Exception e = true →
     ∃ record,
       ProxyManager.load_proxies (Raise e) pm
       = (Return tt, ProxyManager.set_logger (λ l, l ++ [record]) pm) ∧
       (fst record = WARNING ∨ fst record = ERROR)) ∧
  (∀ driver proxy bm e,
     BrowserManager.Driver_ordinary driver →
     BrowserManager.chrome driver = Raise e →
     ∃ bm' records,
       BrowserManager.create_browser driver proxy bm = (Return None, bm') ∧
       BrowserManager.logger bm'
       = records ++ [(ERROR, "Failed to create browser: {str(e)}")]) ∧
  (∀ w video_url b e,
     YouTubeBot.page_get w = Raise e → is_Exception e = true →
     YouTubeBot._simulate_view w video_url b
     = (Return false,
        YouTubeBot.set_logger
          (λ l, (l ++ [(DEBUG, "Navigating to video URL")])
                ++ [(ERROR, "Error during view simulation: {str(e)}")]) b)) ∧
  (∀ driver browser bm e,
     BrowserManager.quit driver = Raise e → is_Exception e = true →
     BrowserManager.close_browser driver (Some browser) bm
     = (Return tt,
        BrowserManager.set_logger
          (λ l, l ++ [(WARNING, "Error closing browser: {str(e)}")]) bm)) ∧
  (∀ w video_url target_views b,
     (∀ i, YouTubeBot.View_ordinary (w i)) →
     ∃ b',
       YouTubeBot.generate_views w video_url target_views b
       = (Return (YouTubeBot.success_count b'), b') ∧
       (YouTubeBot.counted b + Z.max 0 target_views ≤ YouTubeBot.counted b')%Z) ∧
  (∀ w, Main.command_line w = Main.Malformed →
        Main.exit_status (fst (Main.main w Main.initial)) = 2) ∧
  (∀ w args,
     Main.command_line w = Main.Parsed args →
     Main.logging_setup w = Return tt →
     Main.World_ordinary w →
     (Main.ua_init w = Return tt →
      Main.exit_status (fst (Main.main w Main.initial)) = 0) ∧
     (∀ e, Main.ua_init w = Raise e → is_Exception e = true →
           Main.exit_status (fst (Main.main w Main.initial)) = 1)) ∧
  (∀ w args e,
     Main.command_line w = Main.Parsed args →
     Main.logging_setup w = Raise e → is_Exception e = true →
     Main.exit_status (fst (Main.main w Main.initial)) = 1).
Proof.
  split_and!.
  - apply load_config_falls_back.
  - apply load_proxies_degrades.
  - apply create_browser_degrades.
  - apply _simulate_view_degrades.
  - apply close_browser_degrades.
  - intros w video_url target_views b Hw.
    destruct (generate_views_spec w video_url target_views b Hw)
      as (b' & Heq & _ & Hcount & _).
    exists b'. split; [done|lia].
  - intros w Hcli. unfold Main.main, Main.parse_args. by rewrite Hcli.
  - intros w args Hcli Hlog Hw.
    rewrite (main_outcome w args Hcli Hlog Hw). split.
    + by intros ->.
    + intros e -> He. destruct e; try done.
  - intros w args e Hcli Hlog He. unfold Main.main, Main.parse_args.
    rewrite Hcli. unfold bind at 1, ret at 1. unfold bind at 1, lift at 1.
    rewrite Hlog. destruct e; try done.
Qed.

Lemma operations_degrade_and_main_exits_witness :
  Main.exit_status (fst (Main.main Main.calm_world Main.initial)) = 0.
Proof.
  assert (Main.World_ordinary Main.calm_world) as Hw.
  { unfold Main.World_ordinary, YouTubeBot.View_ordinary,
      BrowserManager.Driver_ordinary. simpl.
    repeat first [apply ordinary_Return | split | intros ?]. }
  destruct operations_degrade_and_main_exits
    as (_ & _ & _ & _ & _ & _ & _ & Hmain & _).
  apply (Hmain Main.calm_world Main.sample_args eq_refl eq_refl Hw).
  reflexivity.
Defined.

(** C6, the claim as stated fails: in a run with well-formed arguments in
    which [UserAgent()] raises while the browser manager is constructed,
    [main] logs the error and calls [sys.exit(1)]; the process ends with
    status 1. *)
Lemma main_exits_nonzero_without_user_agent :
  Main.command_line Main.no_user_agent_world = Main.Parsed Main.sample_args ∧
  fst (Main.main Main.no_user_agent_world Main.initial) = Raise (SystemExit 1) ∧
  Main.exit_status (fst (Main.main Main.no_user_agent_world Main.initial)) = 1.
Proof. vm_compute. done. Qed.

End Degrade.

(** ** Schemes in proxy lines *)

Section Schemes.
Import ProxyManager.







End Schemes.

(** ** Integers as text *)

Section Numerals.

(** The characters of a numeral are decimal digits. *)
Lemma pretty_N_go_chars (P : ascii → Prop) (x : N) (s : string) :
  (∀ d, P (pretty_N_char d)) →
  Forall P (list_ascii_of_string s) →
  Forall P (list_ascii_of_string (pretty_N_go x s)).
Proof.
  intros Hd. revert s. induction (N.lt_wf_0 x) as [x _ IH]; intros s Hs.
  assert (x = 0 ∨ 0 < x)%N as [->|Hx] by lia; [by rewrite pretty_N_go_0|].
  rewrite pretty_N_go_step by done. apply IH.
  - by apply N.div_lt.
  - simpl. by constructor.
Qed.

Lemma pretty_positive_chars (P : ascii → Prop) (x : positive) :
  (∀ d, P (pretty_N_char d)) →
  Forall P (list_ascii_of_string (pretty x)).
Proof.
  intros Hd. unfold pretty, pretty_positive, pretty, pretty_N.
  rewrite decide_False by done. apply pretty_N_go_chars; [done|constructor].
Qed.

Lemma contains_colon_chars (s : string) :
  Forall (λ c, Ascii.eqb ":" c = false) (list_ascii_of_string s) →
  contains ":" s = false.
Proof.
  induction s as [|c s IH]; [done|]. simpl. intros [Hc Hs]%Forall_cons.
  rewrite Hc. simpl. by apply IH.
Qed.

Lemma rstrip_chars (s : string) :
  Forall (λ c, isspace c = false) (list_ascii_of_string s) → rstrip s = s.
Proof.
  induction s as [|c s IH]; [done|]. simpl. intros [Hc Hs]%Forall_cons.
  rewrite (IH Hs), Hc. by destruct s.
Qed.

Lemma strip_chars (s : string) :
  Forall (λ c, isspace c = false) (list_ascii_of_string s) → strip s = s.
Proof.
  intros Hs. unfold strip.
  assert (lstrip s = s) as ->; [|by apply rstrip_chars].
  destruct s as [|c s]; [done|]. simpl. by apply Forall_cons in Hs as [-> _].
Qed.

Lemma pretty_N_char_digit (d : N) :
  (d < 10)%N → Ascii.is_nat (pretty_N_char d) = Some (N.to_nat d).
Proof.
  intros Hd.
  assert (d = 0 ∨ d = 1 ∨ d = 2 ∨ d = 3 ∨ d = 4 ∨ d = 5 ∨ d = 6 ∨ d = 7
          ∨ d = 8 ∨ d = 9)%N as Hc by lia.
  repeat destruct Hc as [->|Hc]; try subst d; reflexivity.
Qed.

(** Reading the digits of a numeral gives the number back. *)
Lemma int_digits_pretty_N_go (x : N) :
  (0 < x)%N →
  ∃ p, ∀ s acc b,
    int_digits (pretty_N_go x s) acc b = int_digits s (acc * p + Z.of_N x) true.
Proof.
  induction (N.lt_wf_0 x) as [x _ IH]. intros Hx.
  destruct (N.eq_0_gt_0_cases (x `div` 10)) as [H0|Hq].
  - exists 10. intros s acc b. rewrite pretty_N_go_step by done.
    rewrite H0, pretty_N_go_0. simpl.
    assert (x < 10)%N as Hlt by (apply N.div_small_iff in H0; lia).
    rewrite N.mod_small by done. rewrite (pretty_N_char_digit x Hlt).
    f_equal. lia.
  - destruct (IH (x `div` 10)%N) as [p Hp]; [by apply N.div_lt|done|].
    exists (p * 10). intros s acc b. rewrite pretty_N_go_step by done.
    rewrite Hp. simpl.
    rewrite (pretty_N_char_digit (x `mod` 10)) by (by apply N.mod_lt).
    f_equal. pose proof (N.div_mod x 10). lia.
Qed.

Lemma pretty_N_char_not_colon (d : N) : Ascii.eqb ":" (pretty_N_char d) = false.
Proof. unfold pretty_N_char. by repeat case_match. Qed.

Lemma pretty_N_char_not_space (d : N) : isspace (pretty_N_char d) = false.
Proof. unfold pretty_N_char. by repeat case_match. Qed.

Lemma pretty_N_char_not_sign (d : N) :
  pretty_N_char d ≠ "+"%char ∧ pretty_N_char d ≠ "-"%char.
Proof. unfold pretty_N_char. by repeat case_match. Qed.

(** [str(n)] has no colon. *)
Lemma str_int_no_colon (n : Z) : contains ":" (str_int n) = false.
Proof.
  destruct n as [|x|x]; [done| |].
  - change (str_int (Z.pos x)) with (pretty x).
    apply contains_colon_chars, pretty_positive_chars, pretty_N_char_not_colon.
  - change (str_int (Z.neg x)) with ("-" +:+ pretty x).
    simpl. change (Ascii.eqb ":" "-") with false. simpl.
    apply contains_colon_chars, pretty_positive_chars, pretty_N_char_not_colon.
Qed.

Lemma py_int_pretty_positive (x : positive) :
  strip (pretty x) = pretty x ∧
  int_digits (pretty x) 0 false = Some (Z.pos x) ∧
  ∃ c t, pretty x = String c t ∧ c ≠ "+"%char ∧ c ≠ "-"%char.
Proof.
  split_and!.
  - apply strip_chars, pretty_positive_chars, pretty_N_char_not_space.
  - unfold pretty, pretty_positive, pretty, pretty_N. rewrite decide_False by done.
    destruct (int_digits_pretty_N_go (N.pos x)) as [p ->]; [done|]. simpl. f_equal.
  - unfold pretty, pretty_positive, pretty, pretty_N. rewrite decide_False by done.
    assert (∀ y s, (∃ c t, s = String c t ∧ c ≠ "+"%char ∧ c ≠ "-"%char) →
              ∃ c t, pretty_N_go y s = String c t ∧ c ≠ "+"%char ∧ c ≠ "-"%char) as Hgo.
    { intros y. induction (N.lt_wf_0 y) as [y _ IH]; intros s Hs.
      assert (y = 0 ∨ 0 < y)%N as [->|Hy] by lia; [by rewrite pretty_N_go_0|].
      rewrite pretty_N_go_step by done. apply IH; [by apply N.div_lt|].
      eexists _, _. split; [done|]. apply pretty_N_char_not_sign. }
    rewrite pretty_N_go_step by done. apply Hgo.
    eexists _, _. split; [done|]. apply pretty_N_char_not_sign.
Qed.

(** [int(str(n)) = n] *)
Lemma py_int_str_int (n : Z) : py_int (str_int n) = Some n.
Proof.
  destruct n as [|x|x]; [done| |].
  - change (str_int (Z.pos x)) with (pretty x).
    destruct (py_int_pretty_positive x) as (Hs & Hd & c & t & Hc & Hplus & Hminus).
    unfold py_int. rewrite Hs. rewrite Hc in Hd |- *.
    rewrite <- Hd. clear Hd Hs Hc.
    destruct c as [[] [] [] [] [] [] [] []]; try done.
  - change (str_int (Z.neg x)) with ("-" +:+ pretty x).
    destruct (py_int_pretty_positive x) as (Hs & Hd & c & t & Hc & Hplus & Hminus).
    unfold py_int.
    assert (strip ("-" +:+ pretty x) = "-" +:+ pretty x) as ->.
    { apply strip_chars. simpl. constructor; [done|].
      apply pretty_positive_chars, pretty_N_char_not_space. }
    change (Z.opp <$> int_digits (pretty x) 0 false = Some (Z.neg x)).
    by rewrite Hd.
Qed.

End Numerals.

(** ** Proxy keys *)

Section Keys.
Import ProxyManager.

Lemma contains_colon_app (x y : string) : contains ":" (x +:+ String ":" y) = true.
Proof.
  induction x as [|c x IH]; simpl.
  - reflexivity.
  - rewrite IH. apply orb_true_r.
Qed.

(** A text is cut at its last colon in one way only. *)
Lemma app_colon_inj (h h' d d' : string) :
  contains ":" d = false → contains ":" d' = false →
  h +:+ String ":" d = h' +:+ String ":" d' → h = h' ∧ d = d'.
Proof.
  intros Hd Hd'. revert h'. induction h as [|c h IH]; intros [|c' h'] Heq; simpl in Heq.
  - by injection Heq as ->.
  - injection Heq as <- ->. by rewrite contains_colon_app in Hd.
  - injection Heq as -> <-. by rewrite contains_colon_app in Hd'.
  - injection Heq as -> Heq. destruct (IH _ Heq) as [-> ->]. done.
Qed.

(** X5.  The key identifies host and port: two proxies have the same key
    exactly when they have the same host and the same port. *)
Theorem proxy_key_inj (p q : Proxy) :
  _proxy_key p = _proxy_key q ↔ host p = host q ∧ port p = port q.
Proof.
  unfold _proxy_key. split.
  - intros Heq.
    change (host p +:+ String ":" (str_int (port p))
            = host q +:+ String ":" (str_int (port q))) in Heq.
    apply app_colon_inj in Heq as [Hh Hp]; try apply str_int_no_colon.
    split; [done|]. by apply (inj pretty) in Hp.
  - by intros [-> ->].
Qed.

(** X6.  The key of a proxy is itself a proxy line: when the host has no
    colon and no double slash, parsing the key gives the proxy with the same
    host and port under the scheme [http], without credentials; so the key
    of the parsed record is the key that was parsed. *)
Theorem parse_proxy_key (p : Proxy) :
  contains ":" (host p) = false → contains "//" (host p) = false →
  parsed_entry (_proxy_key p)
  = Some {| host := host p; port := port p; protocol := Some "http";
            username := None; password := None |}
  ∧ (_proxy_key <$> parsed_entry (_proxy_key p)) = Some (_proxy_key p).
Proof.
  intros Hh Hs.
  assert (parsed_entry (_proxy_key p)
          = Some {| host := host p; port := port p; protocol := Some "http";
                    username := None; password := None |}) as ->; [|done].
  unfold parsed_entry, _proxy_key.
  by rewrite (parse_host_port (host p) (str_int (port p)) (port p) blank Hh Hs
                (str_int_no_colon _) (py_int_str_int _)).
Qed.

Lemma parse_proxy_key_witness :
  parsed_entry (_proxy_key sample_proxy_b)
  = Some {| host := "10.0.0.8"; port := 8080; protocol := Some "http";
            username := None; password := None |}.
Proof. apply (proj1 (parse_proxy_key sample_proxy_b eq_refl eq_refl)). Defined.

End Keys.

(** ** What a draw returns *)

Section DrawResults.
Import ProxyManager.

(** How a call of [get_random_proxy] can end. *)
Lemma get_random_proxy_outcome (w : Probes) (limit depth : nat) (pm : t) :
  match get_random_proxy w limit depth pm with
  | (Return (Some p), pm') =>
      p ∈ proxies pm ∧ p ∈ working_proxies pm' ∧ (_proxy_key p ∉ failed_proxies pm')
  | (Return None, pm') =>
      working_proxies pm' = working_proxies pm ∧
      ∀ p, p ∈ proxies pm → _proxy_key p ∈ failed_proxies pm'
  | (Raise e, pm') =>
      working_proxies pm' = working_proxies pm ∧
      (e = RecursionError ∨ is_Exception e = false)
  end.
Proof.
  revert depth pm. induction limit as [|limit IH]; intros depth pm.
  { simpl. auto. }
  rewrite get_random_proxy_S.
  case_bool_decide as Hnil.
  { split; [done|]. intros p. rewrite Hnil. by intros ?%elem_of_nil. }
  simpl. case_bool_decide as Hav.
  { split; [done|]. intros p Hp. simpl.
    destruct (decide (_proxy_key p ∈ failed_proxies pm)) as [|Hk]; [done|].
    assert (p ∈ filter (λ p, _proxy_key p ∉ failed_proxies pm) (proxies pm)) as Hin
      by by apply list_elem_of_filter.
    rewrite Hav in Hin. by apply elem_of_nil in Hin. }
  destruct (random_choice_nonempty (choice w depth) _ Hav) as [proxy Hrc].
  rewrite Hrc.
  pose proof (random_choice_elem _ _ _ Hrc) as [Hkey Hin]%list_elem_of_filter.
  rewrite (bool_decide_false _ Hkey). simpl.
  case_bool_decide as Hwork; simpl; [done|].
  destruct (_test_proxy_spec (λ _, requests_get w depth) proxy pm)
    as (r & msgs & -> & Hexc).
  destruct r as [[|]|e].
  - simpl. split_and!; [done| |done].
    apply elem_of_app. right. apply list_elem_of_here.
  - specialize (IH (S depth)
      (set_failed_proxies (λ f, f ∪ {[ _proxy_key proxy ]})
         (set_logger (λ l, l ++ msgs) pm))).
    destruct (get_random_proxy _ _ _ _) as [[[p|]|e] pm']; simpl in IH; done.
  - simpl. split; [done|]. right. by apply Hexc.
Qed.

(** X7.  A proxy handed out by [get_random_proxy] is one of the loaded
    proxies, it is in the working list when the call returns, and its key is
    not in the failed set. *)
Theorem get_random_proxy_returns_working (w : Probes) (limit depth : nat)
    (pm pm' : t) (p : Proxy) :
  get_random_proxy w limit depth pm = (Return (Some p), pm') →
  p ∈ proxies pm ∧ p ∈ working_proxies pm' ∧ (_proxy_key p ∉ failed_proxies pm').
Proof.
  intros Hget. pose proof (get_random_proxy_outcome w limit depth pm) as H.
  by rewrite Hget in H.
Qed.

Lemma get_random_proxy_returns_working_witness :
  sample_proxy_a ∈ proxies sample_manager ∧
  sample_proxy_a ∈ working_proxies (snd (get_random_proxy sample_probes 5 0 sample_manager)) ∧
  (_proxy_key sample_proxy_a
   ∉ failed_proxies (snd (get_random_proxy sample_probes 5 0 sample_manager))).
Proof.
  apply (get_random_proxy_returns_working sample_probes 5 0 sample_manager).
  vm_compute. reflexivity.
Defined.

(** X8.  [get_random_proxy] returns [None] only when no proxy is left to
    try: the key of every loaded proxy is then in the failed set (which is
    the case, trivially, when no proxy is loaded). *)
Theorem get_random_proxy_none_when_exhausted (w : Probes) (limit depth : nat)
    (pm pm' : t) :
  get_random_proxy w limit depth pm = (Return None, pm') →
  ∀ p, p ∈ proxies pm → _proxy_key p ∈ failed_proxies pm'.
Proof.
  intros Hget. pose proof (get_random_proxy_outcome w limit depth pm) as H.
  rewrite Hget in H. apply H.
Qed.

Lemma get_random_proxy_none_when_exhausted_witness :
  _proxy_key sample_proxy_b
  ∈ failed_proxies (snd (get_random_proxy failing_probes 5 0 sample_manager)).
Proof.
  apply (get_random_proxy_none_when_exhausted failing_probes 5 0 sample_manager).
  - vm_compute. reflexivity.
  - apply list_elem_of_further, list_elem_of_here.
Defined.

End DrawResults.

(** ** Managers without proxies, managers with tested proxies *)

Section Caching.
Import ProxyManager.



(** X10.  Once every proxy whose key has not failed is in the working list,
    [get_random_proxy] hands out one of them without probing it again: the
    manager is left exactly as it was. *)
Theorem get_random_proxy_reuses_working (w : Probes) (limit depth : nat) (pm : t) :
  (∀ p, p ∈ proxies pm → _proxy_key p ∉ failed_proxies pm → p ∈ working_proxies pm) →
  (∃ p, p ∈ proxies pm ∧ _proxy_key p ∉ failed_proxies pm) →
  ∃ p, get_random_proxy w (S limit) depth pm = (Return (Some p), pm) ∧
       p ∈ working_proxies pm.
Proof.
  intros Hall (p0 & Hp0 & Hk0).
  assert (p0 ∈ filter (λ p, _proxy_key p ∉ failed_proxies pm) (proxies pm)) as Hav
    by by apply list_elem_of_filter.
  rewrite get_random_proxy_S.
  rewrite bool_decide_false by (intros Hnil; rewrite Hnil in Hp0; by apply elem_of_nil in Hp0).
  simpl. rewrite bool_decide_false
    by (intros Hnil; rewrite Hnil in Hav; by apply elem_of_nil in Hav).
  destruct (random_choice_nonempty (choice w depth)
              (filter (λ p, _proxy_key p ∉ failed_proxies pm) (proxies pm)))
    as [p Hrc].
  { intros Hnil. rewrite Hnil in Hav. by apply elem_of_nil in Hav. }
  rewrite Hrc.
  pose proof (random_choice_elem _ _ _ Hrc) as [Hkey Hin]%list_elem_of_filter.
  exists p. rewrite (bool_decide_true (p ∈ working_proxies pm)) by by apply Hall.
  rewrite orb_true_r. split; [done|]. by apply Hall.
Qed.

Lemma get_random_proxy_reuses_working_witness :
  ∃ p, get_random_proxy failing_probes 5 0
         {| proxy_file := None; logger := []; proxies := [sample_proxy_a; sample_proxy_b];
            working_proxies := [sample_proxy_a; sample_proxy_b]; failed_proxies := ∅ |}
       = (Return (Some p),
          {| proxy_file := None; logger := []; proxies := [sample_proxy_a; sample_proxy_b];
             working_proxies := [sample_proxy_a; sample_proxy_b]; failed_proxies := ∅ |}) ∧
       p ∈ [sample_proxy_a; sample_proxy_b].
Proof.
  apply (get_random_proxy_reuses_working failing_probes 4 0
           {| proxy_file := None; logger := []; proxies := [sample_proxy_a; sample_proxy_b];
              working_proxies := [sample_proxy_a; sample_proxy_b];
              failed_proxies := ∅ |}).
  - intros p Hp _. exact Hp.
  - exists sample_proxy_a. split; [apply list_elem_of_here|apply not_elem_of_empty].
Defined.

End Caching.

(** ** Proxy statistics *)

Section Statistics.
Import ProxyManager.

Lemma remove_first_sub {A} `{EqDecision A} (x y : A) (l : list A) :
  y ∈ remove_first x l → y ∈ l.
Proof.
  induction l as [|z l IH]; simpl; [done|].
  destruct (decide (x = z)) as [->|Hne].
  - apply list_elem_of_further.
  - intros [->|Hy]%elem_of_cons; [apply list_elem_of_here|].
    by apply list_elem_of_further, IH.
Qed.

Lemma remove_first_NoDup {A} `{EqDecision A} (x : A) (l : list A) :
  NoDup l → NoDup (remove_first x l) ∧ x ∉ remove_first x l.
Proof.
  induction 1 as [|z l Hz Hl [IH1 IH2]]; simpl.
  - split; [constructor|by intros ?%elem_of_nil].
  - destruct (decide (x = z)) as [->|Hne]; [done|]. split.
    + constructor; [|done]. intros Hin. by apply Hz, (remove_first_sub x).
    + intros [->|Hx]%elem_of_cons; done.
Qed.

Lemma tracked_set_logger (f : list log_record → list log_record) (pm : t) :
  tracked pm → tracked (set_logger f pm).
Proof. done. Qed.

Lemma mark_proxy_failed_tracked (proxy : Proxy) (pm : t) :
  proxy ∈ proxies pm → tracked pm →
  tracked (snd (mark_proxy_failed proxy pm)) ∧
  proxies (snd (mark_proxy_failed proxy pm)) = proxies pm.
Proof.
  intros Hin (Hnd & Hsub & Hkeys). unfold mark_proxy_failed. run.
  destruct (remove_first_NoDup proxy _ Hnd) as [Hnd' Hnot].
  case_bool_decide as Hw; simpl; (split; [|done]); split_and!; simpl.
  - done.
  - intros p Hp. by apply Hsub, (remove_first_sub proxy).
  - intros k [Hk| ->%elem_of_singleton]%elem_of_union.
    + destruct (Hkeys k Hk) as (p & Hp & Hkp & Hpw). exists p. split_and!; try done.
      intros Hin'. by apply Hpw, (remove_first_sub proxy).
    + by exists proxy.
  - done.
  - done.
  - intros k [Hk| ->%elem_of_singleton]%elem_of_union.
    + by apply Hkeys.
    + by exists proxy.
Qed.

Lemma get_random_proxy_tracked (w : Probes) (limit depth : nat) (pm : t) :
  tracked pm → tracked (snd (get_random_proxy w limit depth pm)).
Proof.
  revert depth pm. induction limit as [|limit IH]; intros depth pm Ht; [done|].
  rewrite get_random_proxy_S.
  case_bool_decide as Hnil; [done|]. simpl.
  case_bool_decide as Hav; [done|].
  destruct (random_choice_nonempty (choice w depth) _ Hav) as [proxy Hrc].
  rewrite Hrc.
  pose proof (random_choice_elem _ _ _ Hrc) as [Hkey Hin]%list_elem_of_filter.
  rewrite (bool_decide_false _ Hkey). simpl.
  case_bool_decide as Hwork; simpl; [done|].
  destruct (_test_proxy_spec (λ _, requests_get w depth) proxy pm)
    as (r & msgs & -> & Hexc).
  destruct Ht as (Hnd & Hsub & Hkeys).
  destruct r as [[|]|e]; simpl.
  - split_and!; simpl.
    + apply NoDup_app. split_and!; [done| |apply NoDup_singleton].
      intros x Hx ->%list_elem_of_singleton. done.
    + intros p [Hp| ->%list_elem_of_singleton]%elem_of_app; [by apply Hsub|done].
    + intros k Hk. destruct (Hkeys k Hk) as (p & Hp & Hkp & Hpw).
      exists p. split_and!; try done.
      intros [?| ->%list_elem_of_singleton]%elem_of_app; [done|].
      apply Hkey. by rewrite Hkp.
  - apply IH. split_and!; simpl; [done|done|].
    intros k [Hk| ->%elem_of_singleton]%elem_of_union.
    + by apply Hkeys.
    + by exists proxy.
  - done.
Qed.

Lemma run_calls_tracked (cs : list Call) (pm : t) :
  (∀ p, p ∈ marked cs → p ∈ proxies pm) → tracked pm →
  tracked (run_calls cs pm) ∧ proxies (run_calls cs pm) = proxies pm.
Proof.
  revert pm. induction cs as [|c cs IH]; intros pm Hm Ht; simpl; [done|].
  destruct c as [w limit|proxy]; simpl in *.
  - destruct (IH (snd (get_random_proxy w limit 0 pm))) as [IH1 IH2].
    + intros p Hp. rewrite (proj1 (get_random_proxy_inv w limit 0 pm)). by apply Hm.
    + by apply get_random_proxy_tracked.
    + split; [done|]. rewrite IH2. apply get_random_proxy_inv.
  - destruct (mark_proxy_failed_tracked proxy pm) as [Ht1 Hp1]; [|done|].
    { apply Hm, list_elem_of_here. }
    destruct (IH (snd (mark_proxy_failed proxy pm))) as [IH1 IH2]; [|done|].
    + intros p Hp. rewrite Hp1. by apply Hm, list_elem_of_further.
    + split; [done|]. by rewrite IH2.
Qed.

(** Under that bookkeeping the working list and the failed set together are
    no larger than the loaded list. *)
Lemma tracked_size (pm : t) :
  tracked pm →
  (length (working_proxies pm) + size (failed_proxies pm) ≤ length (proxies pm))%nat.
Proof.
  intros (Hnd & Hsub & Hkeys).
  assert (∀ ks : list string,
            (∀ k, k ∈ ks → k ∈ failed_proxies pm) →
            ∃ ps, _proxy_key <$> ps = ks ∧
                  ∀ p, p ∈ ps → p ∈ proxies pm ∧ p ∉ working_proxies pm) as Hpick.
  { induction ks as [|k ks IH]; intros Hks.
    - exists []. split; [done|]. by intros p ?%elem_of_nil.
    - destruct IH as (ps & Hps & Hall).
      { intros k' Hk'. by apply Hks, list_elem_of_further. }
      destruct (Hkeys k) as (p & Hp & Hkp & Hpw); [apply Hks, list_elem_of_here|].
      exists (p :: ps). split; [by rewrite fmap_cons, Hkp, Hps|].
      intros q [->|Hq]%elem_of_cons; [done|by apply Hall]. }
  destruct (Hpick (elements (failed_proxies pm))) as (ps & Hps & Hall).
  { intros k. apply elem_of_elements. }
  assert (NoDup ps) as Hndps.
  { apply (NoDup_fmap_1 _proxy_key). rewrite Hps. apply NoDup_elements. }
  assert (length ps = size (failed_proxies pm)) as <-.
  { unfold size, set_size. simpl. by rewrite <- Hps, length_fmap. }
  rewrite <- length_app. apply submseteq_length, NoDup_submseteq.
  - apply NoDup_app. split_and!; [done| |done].
    intros p Hp Hp'. by destruct (Hall p Hp').
  - intros p [Hp|Hp]%elem_of_app; [by apply Hsub|by apply Hall].
Qed.

(** X11.  From a manager without working or failed entries (as the
    constructor leaves it), after any sequence of calls of
    [get_random_proxy] and of [mark_proxy_failed] on loaded proxies, the
    statistics are consistent: [total] is the number of loaded proxies, the
    working and failed counts together do not exceed it, and [untested] is
    not negative. *)
Theorem get_proxy_stats_consistent (cs : list Call) (pm : t) :
  working_proxies pm = [] → failed_proxies pm = ∅ →
  (∀ p, p ∈ marked cs → p ∈ proxies pm) →
  ∃ s, get_proxy_stats (run_calls cs pm) = (Return s, run_calls cs pm) ∧
       Stats.total s = Z.of_nat (length (proxies pm)) ∧
       (0 ≤ Stats.working s)%Z ∧ (0 ≤ Stats.failed s)%Z ∧ (0 ≤ Stats.untested s)%Z ∧
       Stats.total s = (Stats.working s + Stats.failed s + Stats.untested s)%Z.
Proof.
  intros Hw Hf Hm.
  destruct (run_calls_tracked cs pm Hm) as [Ht Hp].
  { split_and!; rewrite ?Hw, ?Hf.
    - constructor.
    - by intros p ?%elem_of_nil.
    - by intros k ?%elem_of_empty. }
  apply tracked_size in Ht.
  eexists. split; [reflexivity|].
  cbn [Stats.total Stats.working Stats.failed Stats.untested]. unfold len. rewrite Hp in Ht |- *. lia.
Qed.

Lemma get_proxy_stats_consistent_witness :
  ∃ s, get_proxy_stats
         (run_calls [CallGet sample_probes 5; CallMark sample_proxy_a;
                     CallGet failing_probes 5] sample_manager)
       = (Return s,
          run_calls [CallGet sample_probes 5; CallMark sample_proxy_a;
                     CallGet failing_probes 5] sample_manager) ∧
       Stats.total s = 2 ∧
       (0 ≤ Stats.working s)%Z ∧ (0 ≤ Stats.failed s)%Z ∧ (0 ≤ Stats.untested s)%Z ∧
       Stats.total s = (Stats.working s + Stats.failed s + Stats.untested s)%Z.
Proof.
  apply (get_proxy_stats_consistent
           [CallGet sample_probes 5; CallMark sample_proxy_a; CallGet failing_probes 5]
           sample_manager).
  - reflexivity.
  - reflexivity.
  - intros p Hp. simpl in Hp. apply list_elem_of_singleton in Hp as ->.
    apply list_elem_of_here.
Defined.

(** A proxy that was never loaded can be marked too; the statistics then
    count a failed key outside the list, and [untested] goes below zero. *)
Lemma get_proxy_stats_unlisted_mark :
  fst (get_proxy_stats (run_calls [CallMark sample_proxy_a] blank))
  = Return {| Stats.total := 0; Stats.working := 0; Stats.failed := 1; Stats.untested := -1 |}.
Proof. vm_compute. reflexivity. Qed.

End Statistics.

(** ** The default configuration *)

Section Defaults.
Import ConfigManager.

Lemma get_value (section key : string) (fallback : option string) (cm : t) :
  get section key fallback cm
  = (Return match ConfigParser.get_fallback (config cm) section key fallback with
            | Return v => v
            | Raise _ => fallback
            end, cm).
Proof.
  unfold get. run.
  pose proof (ConfigParser_get_fallback_ordinary (config cm) section key fallback) as H.
  destruct (ConfigParser.get_fallback _ _ _ _) as [v|e]; [done|].
  by rewrite (H e eq_refl).
Qed.

(** What an accessor returns depends on the stored configuration only. *)
Lemma call_config (a : Accessor) (cm cm' : t) :
  config cm = config cm' → fst (call a cm) = fst (call a cm').
Proof.
  intros Hcfg.
  destruct a; unfold call, bind, ret,
    get_proxy_file, get_headless_mode, get_disable_images, get_min_delay,
    get_max_delay, get_min_watch_duration, get_max_watch_duration,
    get_page_load_timeout, get_scroll_probability, get_pause_probability,
    get_mouse_move_probability, is_random_behavior_enabled;
    rewrite ?get_bool_spec, ?get_int_spec, ?get_float_spec, ?get_value;
    simpl; by rewrite Hcfg.
Qed.

(** Without a configuration file the constructor leaves the four default
    sections in the parser, whatever happens when they are saved. *)
Lemma init_without_file (config_file : string) (w : Files) :
  path_exists w = false →
  config (snd (__init__ config_file w))
  = config (snd (__init__ "config.ini" no_file)).
Proof.
  intros Hex. unfold __init__, load_config. rewrite Hex.
  unfold _create_default_config, _save_config, log. run.
  destruct (write w) as [[]|e]; simpl; [reflexivity|].
  destruct (is_Exception e) eqn:He; simpl; rewrite ?He; reflexivity.
Qed.

(** The getters, run on the generated defaults and on an empty parser. *)
Lemma defaults_checked :
  forallb (λ a, match fst (call a (snd (__init__ "config.ini" no_file))),
                      fst (call a unconfigured) with
                | Return v, Return v0 => Value_eqb v v0
                | _, _ => false
                end) convenience_getters = true.
Proof. vm_compute. reflexivity. Qed.

(** X12.  When there is no configuration file, the constructor installs the
    default configuration, and every convenience getter then returns a value
    equal to its built-in fallback: the defaults written by
    [_create_default_config] and the fallbacks of the getters agree.  This
    holds whatever happens when the file is saved. *)
Theorem defaults_agree_with_fallbacks (config_file : string) (w : Files) (a : Accessor) :
  path_exists w = false → a ∈ convenience_getters →
  ∃ v v0,
    call a (snd (__init__ config_file w)) = (Return v, snd (__init__ config_file w)) ∧
    call a unconfigured = (Return v0, unconfigured) ∧
    Value_eqb v v0 = true.
Proof.
  intros Hex Ha.
  destruct (call_spec a (snd (__init__ config_file w))) as [v Hv].
  destruct (call_spec a unconfigured) as [v0 Hv0].
  exists v, v0. split; [done|]. split; [done|].
  pose proof (call_config a _ _ (init_without_file config_file w Hex)) as Hsame.
  pose proof defaults_checked as Hall.
  rewrite forallb_forall in Hall. specialize (Hall a).
  rewrite <- Hsame, Hv, Hv0 in Hall. apply Hall.
  by apply list_elem_of_In.
Qed.

Lemma defaults_agree_with_fallbacks_witness :
  ∃ v v0,
    call GetPauseProbability (snd (__init__ "config.ini" no_file))
    = (Return v, snd (__init__ "config.ini" no_file)) ∧
    call GetPauseProbability unconfigured = (Return v0, unconfigured) ∧
    Value_eqb v v0 = true.
Proof.
  apply (defaults_agree_with_fallbacks "config.ini" no_file GetPauseProbability).
  - reflexivity.
  - unfold convenience_getters. repeat first [apply list_elem_of_here | apply list_elem_of_further].
Defined.

End Defaults.

(** ** Browser options *)

Section Browsers.
Import BrowserManager.

(** When [create_browser] hands out a browser, the options were built, the
    driver started and a window size was drawn. *)
Lemma create_browser_inv (w : Driver) (proxy : option ProxyManager.Proxy)
    (bm bm' : t) (br : Browser) :
  create_browser w proxy bm = (Return (Some br), bm') →
  ∃ bm1,
    _get_chrome_options w proxy bm = (Return (options br), bm1) ∧
    chrome w = Return tt ∧
    random_choice (size_draw w)
      [(1920, 1080); (1366, 768); (1536, 864); (1440, 900); (1280, 720); (1024, 768)]
    = Return (window_size br) ∧
    (∀ r, r ∈ logger bm1 → r ∈ logger bm').
Proof.
  unfold create_browser, try_except. unfold bind at 1.
  destruct (_get_chrome_options w proxy bm) as [[opts|e] bm1].
  - unfold bind at 1, lift at 1. destruct (chrome w) as [[]|e].
    + unfold _set_random_window_size, log. run.
      destruct (random_choice _ _) as [size|e]; simpl.
      * destruct (set_window_size w) as [[]|e]; simpl.
        -- intros [= <- <-]. exists bm1. split_and!; try done. simpl.
           intros r Hr. apply elem_of_app. left. apply elem_of_app. by left.
        -- destruct (is_Exception e); simpl; by intros [=].
      * destruct (is_Exception e); simpl; by intros [=].
    + destruct (is_Exception e); unfold log; run; by intros [=].
  - destruct (is_Exception e); unfold log; run; by intros [=].
Qed.

(** The command line that [_get_chrome_options] puts together. *)
Lemma _get_chrome_options_inv (w : Driver) (proxy : option ProxyManager.Proxy)
    (bm bm1 : t) (opts : Options) :
  _get_chrome_options w proxy bm = (Return opts, bm1) →
  ∃ user_agent headless,
    fst (ConfigManager.get_headless_mode (config bm)) = Return headless ∧
    arguments opts
    = ["--no-sandbox"; "--disable-dev-shm-usage";
       "--disable-blink-features=AutomationControlled";
       "--user-agent=" +:+ user_agent;
       "--lang=en-US"; "--log-level=3"; "--silent"; "--memory-pressure-off";
       "--max_old_space_size=4096"; "--disable-plugins-discovery";
       "--disable-extensions"; "--disable-default-apps"; "--disable-sync"]
      ++ match proxy with
         | Some p =>
             match ProxyManager.protocol p with
             | Some protocol =>
                 ["--proxy-server=" +:+ protocol +:+ "://" +:+ ProxyManager.host p
                    +:+ ":" +:+ str_int (ProxyManager.port p)]
             | None => []
             end
         | None => []
         end
      ++ (if headless : bool then ["--headless"] else []) ∧
    match proxy with
    | Some p =>
        is_Some (ProxyManager.protocol p) ∧
        (is_Some (ProxyManager.username p) → is_Some (ProxyManager.password p) →
         (WARNING, "Proxy authentication requires additional setup") ∈ logger bm1)
    | None => True
    end.
Proof.
  unfold _get_chrome_options. unfold bind at 1.
  destruct (_get_random_user_agent w bm) as [[user_agent|e] bm0] eqn:Hua; [|by intros [=]].
  assert (config bm0 = config bm) as Hcfg.
  { revert Hua. unfold _get_random_user_agent, log. run.
    destruct (ua_chrome w) as [ua|e]; simpl.
    - by intros [= _ <-].
    - destruct (is_Exception e); simpl; [|by intros [=]].
      unfold lift. by intros [= _ <-]. }
  unfold on_config, zoom, ConfigManager.get_disable_images,
    ConfigManager.get_headless_mode.
  unfold bind at 1. rewrite get_bool_spec. rewrite bm_set_config_id.
  generalize (match ConfigParser.get (ConfigManager.config (config bm0))
                      "GENERAL" "disable_images" with
              | Return v => match ConfigParser._convert_to_boolean v with
                            | Return x => x
                            | Raise _ => true
                            end
              | Raise _ => true
              end).
  intros images. cbn [fst snd]. intros H.
  exists user_agent.
  exists (match ConfigParser.get (ConfigManager.config (config bm)) "GENERAL" "headless_mode" with
          | Return v => match ConfigParser._convert_to_boolean v with
                        | Return x => x
                        | Raise _ => false
                        end
          | Raise _ => false
          end).
  rewrite get_bool_spec. split; [done|]. revert H.
  destruct proxy as [p|].
  - unfold bind at 1, bind at 1, lift at 1.
    destruct (ProxyManager.protocol p) as [protocol|]; [|by intros [=]].
    unfold bind at 1.
    destruct (ProxyManager.username p) as [u|], (ProxyManager.password p) as [pw|];
      unfold log, ret, modify; cbn [fst snd];
      unfold bind at 1; rewrite get_bool_spec; cbn [config set_logger];
      rewrite ?bm_set_config_id, Hcfg.
    all: generalize (match ConfigParser.get (ConfigManager.config (config bm))
                            "GENERAL" "headless_mode" with
                     | Return v => match ConfigParser._convert_to_boolean v with
                                   | Return x => x
                                   | Raise _ => false
                                   end
                     | Raise _ => false
                     end).
    all: intros headless [= <- <-]; destruct images, headless; simpl.
    all: split; [reflexivity|]; split; [by eexists|]; intros Hu Hp.
    all: try (by destruct Hu); try (by destruct Hp).
    all: apply elem_of_app; right; apply list_elem_of_here.
  - unfold bind at 1, ret at 1. unfold bind at 1. rewrite get_bool_spec.
    rewrite ?bm_set_config_id, Hcfg.
    generalize (match ConfigParser.get (ConfigManager.config (config bm))
                       "GENERAL" "headless_mode" with
                | Return v => match ConfigParser._convert_to_boolean v with
                              | Return x => x
                              | Raise _ => false
                              end
                | Raise _ => false
                end).
    unfold ret; intros headless [= <- <-]; destruct images, headless; simpl; done.
Qed.

(** X13.  A browser created for a proxy is started with exactly one
    [--proxy-server] argument, [protocol://host:port] of that proxy: it never
    carries the credentials.  For a proxy without credentials it is the URL
    that the liveness probe used; for one with both credentials a warning is
    logged.  A browser created without a proxy has no such argument. *)
Theorem create_browser_proxy_argument (w : Driver) (proxy : option ProxyManager.Proxy)
    (bm bm' : t) (br : Browser) :
  create_browser w proxy bm = (Return (Some br), bm') →
  match proxy with
  | Some p =>
      ∃ protocol,
        ProxyManager.protocol p = Some protocol ∧
        List.filter (startswith "--proxy-server=") (arguments (options br))
        = ["--proxy-server=" +:+ protocol +:+ "://" +:+ ProxyManager.host p
             +:+ ":" +:+ str_int (ProxyManager.port p)] ∧
        (ProxyManager.username p = None ∨ ProxyManager.password p = None →
         List.filter (startswith "--proxy-server=") (arguments (options br))
         = ["--proxy-server=" +:+ ProxyManager._format_proxy_url p]) ∧
        (is_Some (ProxyManager.username p) → is_Some (ProxyManager.password p) →
         (WARNING, "Proxy authentication requires additional setup") ∈ logger bm')
  | None =>
      List.filter (startswith "--proxy-server=") (arguments (options br)) = []
  end.
Proof.
  intros (bm1 & Hopts & _ & _ & Hlog)%create_browser_inv.
  apply _get_chrome_options_inv in Hopts
    as (user_agent & headless & _ & -> & Hproxy).
  destruct proxy as [p|].
  - destruct Hproxy as [[protocol Hprotocol] Hwarn]. rewrite Hprotocol.
    exists protocol. split; [done|].
    assert (List.filter (startswith "--proxy-server=")
              (["--no-sandbox"; "--disable-dev-shm-usage";
                "--disable-blink-features=AutomationControlled";
                "--user-agent=" +:+ user_agent;
                "--lang=en-US"; "--log-level=3"; "--silent"; "--memory-pressure-off";
                "--max_old_space_size=4096"; "--disable-plugins-discovery";
                "--disable-extensions"; "--disable-default-apps"; "--disable-sync"]
               ++ ["--proxy-server=" +:+ protocol +:+ "://" +:+ ProxyManager.host p
                     +:+ ":" +:+ str_int (ProxyManager.port p)]
               ++ (if headless then ["--headless"] else []))
            = ["--proxy-server=" +:+ protocol +:+ "://" +:+ ProxyManager.host p
                 +:+ ":" +:+ str_int (ProxyManager.port p)]) as ->.
    { destruct headless; reflexivity. }
    split_and!; [done| |].
    + unfold ProxyManager._format_proxy_url. rewrite Hprotocol. simpl.
      intros [-> | ->]; [done|]. by destruct (ProxyManager.username p).
    + intros Hu Hp. by apply Hlog, Hwarn.
  - destruct headless; reflexivity.
Qed.

Lemma create_browser_proxy_argument_witness :
  List.filter (startswith "--proxy-server=") (arguments (options calm_browser)) = [].
Proof.
  apply (create_browser_proxy_argument calm_driver None calm_manager
           (snd (create_browser calm_driver None calm_manager))).
  vm_compute. reflexivity.
Defined.

(** X14.  A browser that [create_browser] hands out runs headless exactly
    when the configuration says so, and its window has one of the six listed
    sizes, so it is between 1024x720 and 1920x1080. *)
Theorem create_browser_headless_and_size (w : Driver)
    (proxy : option ProxyManager.Proxy) (bm bm' : t) (br : Browser) :
  create_browser w proxy bm = (Return (Some br), bm') →
  ("--headless" ∈ arguments (options br)
   ↔ fst (ConfigManager.get_headless_mode (config bm)) = Return true) ∧
  window_size br
  ∈ [(1920, 1080); (1366, 768); (1536, 864); (1440, 900); (1280, 720); (1024, 768)] ∧
  (1024 ≤ fst (window_size br) ≤ 1920)%Z ∧ (720 ≤ snd (window_size br) ≤ 1080)%Z.
Proof.
  intros (bm1 & Hopts & _ & Hsize & _)%create_browser_inv.
  apply _get_chrome_options_inv in Hopts
    as (user_agent & headless & Hheadless & -> & Hproxy).
  apply random_choice_elem in Hsize. split; [|split; [done|]].
  - rewrite Hheadless. split.
    + intros Hin. f_equal. destruct headless; [done|]. exfalso.
      rewrite app_nil_r in Hin.
      apply elem_of_app in Hin as [Hin|Hin].
      * repeat (apply elem_of_cons in Hin as [Hin|Hin]; [discriminate Hin|]).
        by apply elem_of_nil in Hin.
      * destruct proxy as [p|]; [|by apply elem_of_nil in Hin].
        destruct (ProxyManager.protocol p); [|by apply elem_of_nil in Hin].
        apply list_elem_of_singleton in Hin. discriminate Hin.
    + intros [= ->]. apply elem_of_app. right. apply elem_of_app. right.
      apply list_elem_of_here.
  - repeat (apply elem_of_cons in Hsize as [->|Hsize]; [simpl; lia|]).
    by apply elem_of_nil in Hsize.
Qed.

Lemma create_browser_headless_and_size_witness :
  ("--headless" ∈ arguments (options calm_browser)
   ↔ fst (ConfigManager.get_headless_mode (config calm_manager)) = Return true) ∧
  window_size calm_browser
  ∈ [(1920, 1080); (1366, 768); (1536, 864); (1440, 900); (1280, 720); (1024, 768)] ∧
  (1024 ≤ fst (window_size calm_browser) ≤ 1920)%Z ∧
  (720 ≤ snd (window_size calm_browser) ≤ 1080)%Z.
Proof.
  apply (create_browser_headless_and_size calm_driver None calm_manager
           (snd (create_browser calm_driver None calm_manager))).
  vm_compute. reflexivity.
Defined.

End Browsers.

(** ** The result of a view *)

Section ViewResults.
Import YouTubeBot.





(** *** The success counter *)

Lemma grows_keeps {A} (m : M t A) : keeps success_count m → successes_grow_by 0 m.
Proof. intros Hk b. rewrite (Hk b). lia. Qed.

Lemma grows_weaken {A} (j k : Z) (m : M t A) :
  (j ≤ k)%Z → successes_grow_by j m → successes_grow_by k m.
Proof. intros Hjk Hm b. specialize (Hm b). lia. Qed.

Lemma grows_bind {A B} (j k : Z) (m : M t A) (f : A → M t B) :
  (0 ≤ k)%Z →
  successes_grow_by j m → (∀ a, successes_grow_by k (f a)) →
  successes_grow_by (j + k) (bind m f).
Proof.
  intros Hk Hm Hf b. unfold bind. specialize (Hm b).
  destruct (m b) as [[a|e] b1]; simpl in *; [|lia].
  specialize (Hf a b1). lia.
Qed.

Lemma grows_try_except {A} (j k : Z) (body : M t A) (handler : exn → M t A) :
  (0 ≤ k)%Z →
  successes_grow_by j body → (∀ e, successes_grow_by k (handler e)) →
  successes_grow_by (j + k) (try_except body handler).
Proof.
  intros Hk Hb Hh b. unfold try_except. specialize (Hb b).
  destruct (body b) as [[a|e] b1]; simpl in *; [lia|].
  destruct (is_Exception e); simpl; [|lia]. specialize (Hh e b1). lia.
Qed.

Lemma grows_for_each {A} (l : list A) (body : A → M t unit) :
  (∀ x, successes_grow_by 1 (body x)) →
  successes_grow_by (Z.of_nat (length l)) (for_each l body).
Proof.
  intros Hb. induction l as [|x l IH].
  - intros b. simpl. lia.
  - simpl for_each. replace (Z.of_nat (length (x :: l))) with (1 + Z.of_nat (length l))%Z
      by (simpl; lia).
    apply grows_bind; [lia|apply Hb|intros _; exact IH].
Qed.

Lemma _simulate_human_behavior_keeps_successes (w : View) :
  keeps success_count (_simulate_human_behavior w).
Proof. unfold _simulate_human_behavior, log. repeat method_step. Qed.

Lemma _simulate_view_keeps_successes (w : View) (video_url : string) :
  keeps success_count (_simulate_view w video_url).
Proof.
  unfold _simulate_view, log.
  repeat first [ apply _simulate_human_behavior_keeps_successes
               | apply _get_random_watch_duration_keeps
               | method_step ].
Qed.

(** The wait at the end of a view leaves the success counter alone. *)
Lemma wait_keeps_successes (w : View) (target_views : Z) (i : nat) :
  keeps success_count
    (if (Z.of_nat i <? target_views - 1)%Z then
       bind (_get_random_delay (delay_bits w)) (λ delay,
         bind (log DEBUG "Waiting {delay} seconds before next view...") (λ _,
           lift (time_sleep delay)))
     else ret tt).
Proof.
  unfold log. repeat first [apply _get_random_delay_keeps | method_step].
Qed.

(** One view adds one success at most. *)
Lemma generate_view_grows (w : View) (video_url : string) (target_views : Z) (i : nat) :
  successes_grow_by 1 (generate_view w video_url target_views i).
Proof.
  unfold generate_view.
  apply (grows_try_except 1 0); [lia| |].
  2: { intros e. apply grows_keeps. unfold log. repeat method_step. }
  apply (grows_bind 0 1); [lia|apply grows_keeps; unfold log; repeat method_step|intros _].
  apply (grows_bind 0 1); [lia|apply grows_keeps; by apply keeps_zoom|intros proxy].
  apply (grows_bind 0 1);
    [lia|apply grows_keeps; unfold log; repeat method_step|intros _].
  apply (grows_bind 0 1); [lia|apply grows_keeps; by apply keeps_zoom|intros browser].
  apply (grows_bind 1 0); [lia| |intros _; apply grows_keeps, wait_keeps_successes].
  destruct browser as [br|].
  - apply (grows_bind 0 1);
      [lia|apply grows_keeps, _simulate_view_keeps_successes|intros success].
    apply (grows_bind 1 0); [lia| |intros _; apply grows_keeps; by apply keeps_zoom].
    destruct success.
    + apply (grows_bind 1 0); [lia| |intros _; apply grows_keeps; unfold log; repeat method_step].
      intros b. simpl. lia.
    + apply (grows_weaken 0 1); [lia|]. apply grows_keeps. unfold log. repeat method_step.
  - apply (grows_weaken 0 1); [lia|]. apply grows_keeps. unfold log. repeat method_step.
Qed.

(** X16.  Whatever the world does, [generate_views] never lowers the success
    counter and raises it by at most the number of views requested; when it
    returns, it returns the success counter. *)
Theorem generate_views_successes_bounded (w : nat → View) (video_url : string)
    (target_views : Z) (b : t) :
  (success_count b
   ≤ success_count (snd (generate_views w video_url target_views b))
   ≤ success_count b + Z.max 0 target_views)%Z ∧
  ∀ r, fst (generate_views w video_url target_views b) = Return r →
       r = success_count (snd (generate_views w video_url target_views b)).
Proof.
  split.
  - assert (successes_grow_by (0 + (Z.of_nat (length (seq 0 (Z.to_nat target_views))) + (0 + 0)))
              (generate_views w video_url target_views)) as Hg.
    { unfold generate_views.
      apply grows_bind; [lia|apply grows_keeps; unfold log; repeat method_step|intros _].
      apply grows_bind; [lia| |intros _].
      - apply grows_for_each. intros i. apply generate_view_grows.
      - apply grows_bind; [lia|apply grows_keeps; unfold log; repeat method_step|intros _].
        apply grows_keeps. repeat method_step. }
    specialize (Hg b). rewrite length_seq in Hg. lia.
  - unfold generate_views, bind, gets.
    repeat goal_match; simpl; congruence.
Qed.

(** A view for which the driver cannot be started is never a success. *)
Lemma generate_view_without_driver (w : View) (video_url : string)
    (target_views : Z) (i : nat) (e : exn) :
  View_ordinary w → BrowserManager.chrome (driver w) = Raise e →
  keeps success_count (generate_view w video_url target_views i).
Proof.
  intros (_ & Hdriver & _) He.
  unfold generate_view, log.
  apply keeps_try_except; [|intros e'; repeat method_step].
  apply keeps_bind; [repeat method_step|intros _].
  apply keeps_bind; [by apply keeps_zoom|intros proxy].
  apply keeps_bind; [repeat method_step|intros _].
  intros s. unfold bind at 1. unfold on_browser_manager at 1, zoom.
  destruct (create_browser_degrades (driver w) proxy (browser_manager s) e
              Hdriver He) as (bm' & records & -> & _).
  cbn [fst snd].
  match goal with
  | |- success_count (snd (?m ?s')) = _ =>
      assert (keeps success_count m) as Hm; [|by rewrite (Hm s')]
  end.
  apply keeps_bind; [unfold log; repeat method_step|intros _].
  apply wait_keeps_successes.
Qed.

(** X18.  When the driver cannot be started for any view (and the world
    raises [Exception]s only), [generate_views] returns the success counter
    unchanged, and every requested view is counted as failed. *)
Theorem generate_views_without_driver (w : nat → View) (video_url : string)
    (target_views : Z) (b : t) :
  (∀ i, View_ordinary (w i)) →
  (∀ i, ∃ e, BrowserManager.chrome (driver (w i)) = Raise e) →
  ∃ b', generate_views w video_url target_views b = (Return (success_count b), b') ∧
        success_count b' = success_count b ∧
        (failed_count b + Z.max 0 target_views ≤ failed_count b')%Z.
Proof.
  intros Hw Hchrome.
  destruct (generate_views_spec w video_url target_views b Hw)
    as (b' & Heq & _ & Hcount & _).
  assert (keeps success_count (generate_views w video_url target_views)) as Hkeep.
  { unfold generate_views, log.
    apply keeps_bind; [repeat method_step|intros _].
    apply keeps_bind; [|intros _; repeat method_step].
    apply keeps_for_each. intros i. destruct (Hchrome i) as [e He].
    by apply (generate_view_without_driver (w i) video_url target_views i e). }
  specialize (Hkeep b). rewrite Heq in Hkeep. simpl in Hkeep.
  exists b'. rewrite <- Hkeep at 1. split; [done|]. split; [done|].
  unfold counted in Hcount. lia.
Qed.

Lemma generate_views_without_driver_witness :
  ∃ b', generate_views (λ _, no_driver_view) "https://youtu.be/x" 3 default_bot
        = (Return (success_count default_bot), b') ∧
        success_count b' = success_count default_bot ∧
        (failed_count default_bot + Z.max 0 3 ≤ failed_count b')%Z.
Proof.
  apply (generate_views_without_driver (λ _, no_driver_view) "https://youtu.be/x" 3
           default_bot).
  - intros _. unfold View_ordinary, BrowserManager.Driver_ordinary. simpl.
    split_and!; try intros k; first [apply ordinary_Return | by apply ordinary_Raise].
  - intros _. by exists Exception_.
Defined.

End ViewResults.

(** ** Runs of the process *)

Section Runs.
Import Main.

(** X19.  A dry run builds the configuration manager and the bot, logs four
    records and returns: no view is generated, so the bot that the process
    holds at the end is the bot as its constructor left it, whatever the
    world would have answered during a view. *)
Theorem main_dry_run (w : World) (args : Args) (b : YouTubeBot.t) :
  command_line w = Parsed args → dry_run args = true →
  logging_setup w = Return tt →
  fst (ConfigManager.__init__ (config args) (files w)) = Return tt →
  YouTubeBot.__init__ (snd (ConfigManager.__init__ (config args) (files w)))
    (proxy_lines w) (ua_init w) = Return b →
  main w initial
  = (Return tt,
     {| logger := [(INFO, "Starting YouTube bot for URL: {args.url}");
                   (INFO, "Target views: {args.views}");
                   (INFO, "Dry run mode: {args.dry_run}");
                   (INFO, "DRY RUN MODE - No actual views will be generated")];
        bot := Some b |}).
Proof.
  intros Hcli Hdry Hlog Hcfg Hbot.
  unfold main, parse_args. rewrite Hcli. unfold bind at 1, ret at 1.
  unfold bind at 1, lift at 1. rewrite Hlog.
  unfold try_catch.
  destruct (ConfigManager.__init__ (config args) (files w)) as [r cm].
  simpl in Hcfg, Hbot. subst r.
  unfold bind at 1, lift at 1. unfold bind at 1, lift at 1. rewrite Hbot.
  rewrite Hdry. reflexivity.
Qed.

Lemma main_dry_run_witness :
  fst (main dry_run_world initial) = Return tt ∧
  (YouTubeBot.success_count <$> bot (snd (main dry_run_world initial))) = Some 0.
Proof.
  rewrite (main_dry_run dry_run_world
             dry_run_args
             sample_bot); try reflexivity.
  split; reflexivity.
Defined.

(** X20.  Once the arguments are parsed and logging is set up, [main] ends
    in one of two ways only: it returns, or it raises [SystemExit].  No other
    exception leaves it; an interrupt from the keyboard makes it return. *)
Theorem main_returns_or_exits (w : World) (args : Args) :
  command_line w = Parsed args → logging_setup w = Return tt →
  fst (main w initial) = Return tt ∨ ∃ code, fst (main w initial) = Raise (SystemExit code).
Proof.
  intros Hcli Hlog.
  remember (fst (main w initial)) as out eqn:Hout. revert Hout.
  unfold main, parse_args. rewrite Hcli. unfold bind at 1, ret at 1.
  unfold bind at 1, lift at 1. rewrite Hlog.
  unfold try_catch.
  destruct (ConfigManager.__init__ (config args) (files w)) as [r cm].
  match goal with
  | |- context [bind (lift r) ?k ?s] => destruct (bind (lift r) k s) as [[[]|e] p]
  end.
  - intros ->. by left.
  - destruct e; simpl; intros ->; eauto.
Qed.

Lemma main_returns_or_exits_witness :
  fst (main interrupted_world initial) = Return tt
  ∨ ∃ code, fst (main interrupted_world initial) = Raise (SystemExit code).
Proof.
  apply (main_returns_or_exits interrupted_world sample_args); reflexivity.
Defined.

(** X21.  When the user interrupts the generation of the views, [main] logs
    that the bot was stopped and returns: the process ends with status 0. *)
Theorem main_stopped_by_user (w : World) (args : Args) (b : YouTubeBot.t) :
  command_line w = Parsed args → dry_run args = false →
  logging_setup w = Return tt →
  fst (ConfigManager.__init__ (config args) (files w)) = Return tt →
  YouTubeBot.__init__ (snd (ConfigManager.__init__ (config args) (files w)))
    (proxy_lines w) (ua_init w) = Return b →
  fst (YouTubeBot.generate_views (view w) (url args) (views args) b)
  = Raise KeyboardInterrupt →
  fst (main w initial) = Return tt ∧
  exit_status (fst (main w initial)) = 0 ∧
  last (logger (snd (main w initial))) = Some (INFO, "Bot stopped by user").
Proof.
  intros Hcli Hdry Hlog Hcfg Hbot Hstop.
  assert (∃ p, main w initial = (Return tt, p) ∧
               last (logger p) = Some (INFO, "Bot stopped by user"))
    as (p & -> & Hp); [|done].
  unfold main, parse_args. rewrite Hcli. unfold bind at 1, ret at 1.
  unfold bind at 1, lift at 1. rewrite Hlog.
  unfold try_catch.
  destruct (ConfigManager.__init__ (config args) (files w)) as [r cm].
  simpl in Hcfg, Hbot. subst r.
  unfold bind at 1, lift at 1. unfold bind at 1, lift at 1. rewrite Hbot.
  rewrite Hdry. unfold log, on_bot. run.
  destruct (YouTubeBot.generate_views (view w) (url args) (views args) b) as [r b'].
  simpl in Hstop. subst r. simpl. eexists. split; [reflexivity|]. reflexivity.
Qed.

Lemma main_stopped_by_user_witness :
  fst (main interrupted_world initial) = Return tt ∧
  exit_status (fst (main interrupted_world initial)) = 0 ∧
  last (logger (snd (main interrupted_world initial))) = Some (INFO, "Bot stopped by user").
Proof.
  apply (main_stopped_by_user interrupted_world sample_args
           sample_bot); [reflexivity..|vm_compute; reflexivity].
Defined.

End Runs.
